(** * neoscene: layout engine, asset catalog and MJCF compiler

    A shallow embedding of [neoscene/exporters/mjcf_exporter.py] and
    [neoscene/core/asset_catalog.py], with the parts of
    [neoscene/core/scene_schema.py] they consume.

    Python floats are IEEE-754 doubles and are modelled by the kernel's
    primitive floats ([PrimFloat]).  [random.Random] and [math.cos],
    [math.sin] are kept abstract (Section variables): every statement below
    holds for any generator and any trigonometric functions. *)

From Stdlib Require Import Bool Arith Lia List String Ascii ZArith.
From Stdlib Require Import Floats Sorted Permutation.
Import ListNotations.

Open Scope string_scope.
Open Scope list_scope.

(** ** Python helpers *)

(** Decimal rendering of a non-negative Python [int] ([str(n)], [f"{n}"]). *)
Fixpoint digits_rev (fuel n : nat) : list ascii :=
  match fuel with
  | 0 => []
  | S fuel' =>
      let d := ascii_of_nat (48 + n mod 10) in
      if Nat.ltb n 10 then [d] else d :: digits_rev fuel' (n / 10)
  end.

Definition str_of_nat (n : nat) : string :=
  string_of_list_ascii (rev (digits_rev (S n) n)).

(** [str.lower()] on ASCII text. *)
Definition lower_char (c : ascii) : ascii :=
  let n := nat_of_ascii c in
  if Nat.leb 65 n && Nat.leb n 90 then ascii_of_nat (n + 32) else c.

Fixpoint lower (s : string) : string :=
  match s with
  | EmptyString => EmptyString
  | String c s' => String (lower_char c) (lower s')
  end.

(** [s.startswith(p)]. *)
Fixpoint startswith (s p : string) : bool :=
  match p, s with
  | EmptyString, _ => true
  | String c p', String d s' => Ascii.eqb c d && startswith s' p'
  | String _ _, EmptyString => false
  end.

(** [needle in hay] for strings. *)
Fixpoint str_in (needle hay : string) : bool :=
  startswith hay needle ||
  match hay with
  | EmptyString => false
  | String _ hay' => str_in needle hay'
  end.

(** [s[:n]]. *)
Definition take (n : nat) (s : string) : string := substring 0 n s.

(** Truthiness of an optional string: [None] and [""] are false. *)
Definition truthy_str (o : option string) : bool :=
  match o with
  | Some (String _ _) => true
  | _ => false
  end.

(** [a or b] for an optional string [a] and a string [b]. *)
Definition or_str (a : option string) (b : string) : string :=
  match a with
  | Some (String _ _ as s) => s
  | _ => b
  end.

(** Python list indexing [l[i]]; the schema fixes the vector lengths, so the
    out-of-range branch is never taken on validated input. *)
Definition getf (l : list float) (i : nat) : float := nth i l 0%float.

(** [float(n)] for a non-negative [int] below [2^63]. *)
Definition float_of_nat (n : nat) : float :=
  PrimFloat.of_uint63 (Uint63.of_Z (Z.of_nat n)).

(** ** Scene IR ([scene_schema.py]) *)

Record Pose := mkPose {
  position : list float;
  yaw_deg : float;
  pitch_deg : float;
  roll_deg : float
}.

(** [Pose(position=p, yaw_deg=y)] with the other angles at their default. *)
Definition pose_py (p : list float) (y : float) : Pose := mkPose p y 0%float 0%float.

Record GridLayout := mkGrid {
  g_origin : list float;
  rows : nat;
  cols : nat;
  spacing : list float;
  yaw_variation_deg : float
}.

Record RandomLayout := mkRandom {
  center : list float;
  radius : float;
  count : nat;
  min_separation : float;
  random_yaw : bool
}.

(** [Optional[Union[GridLayout, RandomLayout]]] *)
Inductive Layout :=
| LGrid (g : GridLayout)
| LRandom (r : RandomLayout).

Record InstanceSpec := mkInstance {
  pose : Pose;
  name_suffix : option string
}.

Record ObjectSpec := mkObject {
  o_asset_id : string;
  o_name : option string;
  layout : option Layout;
  instances : option (list InstanceSpec)
}.

(** [ObjectSpec.validate_placement]: layout and instances are exclusive. *)
Definition object_valid (o : ObjectSpec) : bool :=
  match layout o, instances o with
  | Some _, Some _ => false
  | _, _ => true
  end.

Record CameraSpec := mkCamera {
  cam_name : string;
  cam_pose : Pose;
  target : option (list float);
  fovy : float
}.

Record LightSpec := mkLight {
  light_name : string;
  light_type : string;
  light_position : list float;
  direction : option (list float);
  diffuse : list float;
  specular : list float
}.

Record EnvironmentSpec := mkEnv {
  env_asset_id : string;
  gravity : list float
}.

Record PhysicsSpec := mkPhysics {
  timestep : float;
  solver : string;
  iterations : nat;
  integrator : string
}.

Record SceneSpec := mkScene {
  scene_name : string;
  environment : EnvironmentSpec;
  objects : list ObjectSpec;
  cameras : list CameraSpec;
  lights : list LightSpec;
  physics : PhysicsSpec
}.

(** ** Layout engine ([_layout_instances]) *)

Section Layout.

(** [random.Random]: a generator state, [random.Random(seed)] and
    [rng.random()]. *)
Variable RngState : Type.
Variable rng_new : Z -> RngState.
Variable rng_random : RngState -> float * RngState.
(** [math.cos], [math.sin]. *)
Variables math_cos math_sin : float -> float.

(** [rng.uniform(a, b)] is [a + (b - a) * self.random()] in CPython. *)
Definition rng_uniform (a b : float) (st : RngState) : float * RngState :=
  let (u, st') := rng_random st in ((a + (b - a) * u)%float, st').

(** [math.pi] (3.141592653589793). *)
Definition math_pi : float := 0x1.921fb54442d18p+1%float.

(** Lines 93-109: the grid cell at (row, col). *)
Definition grid_cell (g : GridLayout) (row col : nat) (st : RngState)
  : InstanceSpec * RngState :=
  let x := (getf (g_origin g) 0 + float_of_nat col * getf (spacing g) 0)%float in
  let y := (getf (g_origin g) 1 + float_of_nat row * getf (spacing g) 1)%float in
  let z := getf (g_origin g) 2 in
  let '(yaw, st') :=
    if PrimFloat.ltb 0 (yaw_variation_deg g)
    then rng_uniform (- yaw_variation_deg g) (yaw_variation_deg g) st
    else (0%float, st) in
  (mkInstance (pose_py [x; y; z] yaw)
     (Some ("r" ++ str_of_nat row ++ "_c" ++ str_of_nat col)%string), st').

(** [for col in range(cols)], starting at column [col]. *)
Fixpoint grid_cols (g : GridLayout) (row col left : nat) (st : RngState)
  : list InstanceSpec * RngState :=
  match left with
  | 0 => ([], st)
  | S left' =>
      let '(i, st1) := grid_cell g row col st in
      let '(is, st2) := grid_cols g row (S col) left' st1 in
      (i :: is, st2)
  end.

(** [for row in range(rows)], starting at row [row]. *)
Fixpoint grid_rows (g : GridLayout) (row left : nat) (st : RngState)
  : list InstanceSpec * RngState :=
  match left with
  | 0 => ([], st)
  | S left' =>
      let '(is, st1) := grid_cols g row 0 (cols g) st in
      let '(js, st2) := grid_rows g (S row) left' st1 in
      (is ++ js, st2)
  end.

Definition grid_instances (g : GridLayout) (seed : Z) : list InstanceSpec :=
  fst (grid_rows g 0 (rows g) (rng_new seed)).

(** Lines 121-125: a uniform point of the disk. *)
Definition draw_point (l : RandomLayout) (st : RngState)
  : (float * float) * RngState :=
  let '(angle, st1) := rng_uniform 0 (2 * math_pi) st in
  let '(u, st2) := rng_uniform 0 1 st1 in
  let r := (PrimFloat.sqrt u * radius l)%float in
  ((getf (center l) 0 + r * math_cos angle,
    getf (center l) 1 + r * math_sin angle)%float, st2).

(** Lines 128-134: [(x - px) ** 2] is the correctly rounded square. *)
Fixpoint too_close (l : RandomLayout) (p : float * float)
  (placed : list (float * float)) : bool :=
  match placed with
  | [] => false
  | (px, py) :: placed' =>
      let dx := (fst p - px)%float in
      let dy := (snd p - py)%float in
      PrimFloat.ltb (PrimFloat.sqrt (dx * dx + dy * dy)) (min_separation l)
      || too_close l p placed'
  end.

Definition accept (l : RandomLayout) (placed : list (float * float))
  (p : float * float) : bool :=
  if PrimFloat.ltb 0 (min_separation l) then negb (too_close l p placed)
  else true.

(** The attempt loop (lines 120-139).  [last] is the value [x, y] hold
    when the loop body has not run again; the result's flag says whether
    the point was appended to [placed_positions]. *)
Fixpoint try_place (l : RandomLayout) (k : nat)
  (placed : list (float * float)) (last : float * float) (st : RngState)
  : (float * float) * bool * RngState :=
  match k with
  | 0 => (last, false, st)
  | S k' =>
      let '(p, st1) := draw_point l st in
      if accept l placed p then (p, true, st1)
      else try_place l k' placed p st1
  end.

Definition max_attempts : nat := 100.

(** [for i in range(count)], starting at index [i]. *)
Fixpoint random_points (l : RandomLayout) (i left : nat)
  (placed : list (float * float)) (st : RngState) : list InstanceSpec :=
  match left with
  | 0 => []
  | S left' =>
      let '(p, ok, st1) := try_place l max_attempts placed (0%float, 0%float) st in
      let placed' := if ok then placed ++ [p] else placed in
      let z := getf (center l) 2 in
      let '(yaw, st2) :=
        if random_yaw l then rng_uniform 0 360 st1 else (0%float, st1) in
      mkInstance (pose_py [fst p; snd p; z] yaw) (Some (str_of_nat i))
        :: random_points l (S i) left' placed' st2
  end.

Definition random_instances (l : RandomLayout) (seed : Z) : list InstanceSpec :=
  random_points l 0 (count l) [] (rng_new seed).

(** [_layout_instances(obj, catalog, seed)]; the catalog is not used. *)
Definition layout_instances (o : ObjectSpec) (seed : Z) : list InstanceSpec :=
  match instances o with
  | Some is => is
  | None =>
      match layout o with
      | None => [mkInstance (pose_py [0; 0; 0]%float 0) None]
      | Some (LGrid g) => grid_instances g seed
      | Some (LRandom l) => random_instances l seed
      end
  end.

End Layout.

(** ** Python dicts as insertion-ordered association lists *)

Definition Dict (V : Type) := list (string * V).

Fixpoint dict_get {V} (k : string) (d : Dict V) : option V :=
  match d with
  | [] => None
  | (k', v) :: d' => if String.eqb k k' then Some v else dict_get k d'
  end.

Definition dict_mem {V} (k : string) (d : Dict V) : bool :=
  match dict_get k d with Some _ => true | None => false end.

(** [d[k] = v]: an existing key keeps its place, a new key goes last. *)
Fixpoint dict_set {V} (k : string) (v : V) (d : Dict V) : Dict V :=
  match d with
  | [] => [(k, v)]
  | (k', v') :: d' =>
      if String.eqb k k' then (k', v) :: d' else (k', v') :: dict_set k v d'
  end.

(** [if k not in d: d[k] = []] followed by [d[k].append(x)]. *)
Definition dict_push {V} (k : string) (x : V) (d : Dict (list V)) : Dict (list V) :=
  match dict_get k d with
  | Some xs => dict_set k (xs ++ [x]) d
  | None => dict_set k [x] d
  end.

Definition dict_keys {V} (d : Dict V) : list string := map fst d.

(** ** Asset manifests and catalog ([asset_manifest.py], [asset_catalog.py]) *)

Record Semantics := mkSemantics {
  human_names : list string;
  usage : list string
}.

Record AssetManifest := mkManifest {
  asset_id : string;
  m_name : string;
  category : string;
  tags : list string;
  fallback_for : list string;
  availability : string;
  mjcf_include : string;
  semantics : Semantics
}.

Record AssetSummary := mkSummary {
  s_asset_id : string;
  s_name : string;
  s_category : string;
  s_tags : list string;
  s_availability : string;
  s_path : string
}.

Record AssetCatalog := mkCatalog {
  by_id : Dict AssetManifest;
  paths : Dict string;
  summaries : list AssetSummary;
  by_category : Dict (list string);
  by_tag : Dict (list string);
  by_fallback : Dict (list string)
}.

Definition empty_catalog : AssetCatalog := mkCatalog [] [] [] [] [] [].

(** One iteration of the [_scan] loop for a manifest found in [folder]. *)
Definition scan_one (c : AssetCatalog) (folder : string) (m : AssetManifest)
  : AssetCatalog :=
  let aid := asset_id m in
  mkCatalog
    (dict_set aid m (by_id c))
    (dict_set aid folder (paths c))
    (summaries c ++ [mkSummary aid (m_name m) (category m) (tags m)
                       (availability m) folder])
    (dict_push (category m) aid (by_category c))
    (fold_left (fun d t => dict_push (lower t) aid d) (tags m) (by_tag c))
    (fold_left (fun d t => dict_push (lower t) aid d) (fallback_for m)
       (by_fallback c)).

(** [_scan]: the manifests in glob order, each with its folder; [None] is a
    manifest that failed to load and is skipped. *)
Definition scan (found : list (string * option AssetManifest)) : AssetCatalog :=
  fold_left (fun c fm =>
               match snd fm with
               | Some m => scan_one c (fst fm) m
               | None => c
               end) found empty_catalog.

(** Errors raised by the code below. *)
Inductive Error :=
| AssetNotFoundError (asset_id : string) (suggestions : list string)
| FileNotFoundError (path : string).

Inductive Result (A : Type) :=
| Ok (a : A)
| Err (e : Error).
Arguments Ok {A} a.
Arguments Err {A} e.

Definition bind {A B} (r : Result A) (k : A -> Result B) : Result B :=
  match r with Ok a => k a | Err e => Err e end.

Notation "'let*' x ':=' r 'in' k" := (bind r (fun x => k))
  (at level 200, x name, r at level 100, k at level 200).

(** The test of one catalog key in [_find_similar] (lines 168-172). *)
Definition similar (query_lower existing_id : string) : bool :=
  if str_in query_lower (lower existing_id) || str_in (lower existing_id) query_lower
  then true
  else Nat.ltb 3 (String.length query_lower) && startswith (lower existing_id) (take 3 query_lower).

Fixpoint collect_similar (query_lower : string) (ids : list string) : list string :=
  match ids with
  | [] => []
  | e :: ids' =>
      if similar query_lower e then e :: collect_similar query_lower ids'
      else collect_similar query_lower ids'
  end.

Definition find_similar (c : AssetCatalog) (q : string) (limit : nat) : list string :=
  firstn limit (collect_similar (lower q) (dict_keys (by_id c))).

(** [AssetCatalog.get]. *)
Definition get (c : AssetCatalog) (aid : string) : Result AssetManifest :=
  match dict_get aid (by_id c) with
  | Some m => Ok m
  | None => Err (AssetNotFoundError aid (find_similar c aid 3))
  end.

(** [AssetCatalog.get_path]. *)
Definition get_path (c : AssetCatalog) (aid : string) : Result string :=
  match dict_get aid (paths c) with
  | Some p => Ok p
  | None => Err (AssetNotFoundError aid (find_similar c aid 3))
  end.

(** [_score]: exact match scores [exact], a proper substring [partial]. *)
Definition match_score (q s : string) (exact partial : nat) : nat :=
  if String.eqb q (lower s) then exact
  else if str_in q (lower s) then partial else 0.

Definition list_score (q : string) (l : list string) (exact partial : nat) : nat :=
  fold_left (fun acc s => acc + match_score q s exact partial) l 0.

(** The asset-id signal of [_score] (lines 192-197). *)
Definition id_score (s : AssetSummary) (q : string) : nat :=
  match_score (lower q) (s_asset_id s) 100 50.

(** Every other signal of [_score] (lines 200-227). *)
Definition rest_score (c : AssetCatalog) (s : AssetSummary) (q : string) : nat :=
  let ql := lower q in
  match_score ql (s_name s) 80 40
  + list_score ql (s_tags s) 30 15
  + match dict_get (s_asset_id s) (by_id c) with
    | Some m =>
        list_score ql (human_names (semantics m)) 25 12
        + list_score ql (usage (semantics m)) 20 10
    | None => 0
    end.

Definition score (c : AssetCatalog) (s : AssetSummary) (q : string) : nat :=
  id_score s q + rest_score c s q.

(** [results.sort(key=lambda x: x[0], reverse=True)]: a stable sort on
    descending score, equal scores keeping their scan order. *)
Fixpoint insert_desc {A} (x : nat * A) (l : list (nat * A)) : list (nat * A) :=
  match l with
  | [] => [x]
  | y :: l' => if Nat.ltb (fst y) (fst x) then x :: y :: l' else y :: insert_desc x l'
  end.

Definition sort_desc {A} (l : list (nat * A)) : list (nat * A) :=
  fold_left (fun acc x => insert_desc x acc) l [].

(** Truthiness of the optional category filter. *)
Definition filtered_out (category_filter : option string) (s : AssetSummary) : bool :=
  truthy_str category_filter
  && negb (String.eqb (s_category s) (or_str category_filter "")).

Fixpoint scored (c : AssetCatalog) (q : string) (cat : option string)
  (l : list AssetSummary) : list (nat * AssetSummary) :=
  match l with
  | [] => []
  | s :: l' =>
      if filtered_out cat s then scored c q cat l'
      else
        let sc := score c s q in
        if Nat.ltb 0 sc then (sc, s) :: scored c q cat l' else scored c q cat l'
  end.

(** [AssetCatalog.search(query, category, limit)]. *)
Definition search (c : AssetCatalog) (q : string) (cat : option string)
  (limit : nat) : list AssetSummary :=
  map snd (firstn limit (sort_desc (scored c q cat (summaries c)))).

(** [AssetCatalog.find_fallback].  The index only holds ids that [_scan]
    also put in [_by_id], so [self._by_id[aid]] never misses. *)
Fixpoint first_local (c : AssetCatalog) (cat : option string)
  (candidates : list string) : option AssetManifest :=
  match candidates with
  | [] => None
  | aid :: rest =>
      match dict_get aid (by_id c) with
      | None => first_local c cat rest
      | Some m =>
          if truthy_str cat && negb (String.eqb (category m) (or_str cat ""))
          then first_local c cat rest
          else if String.eqb (availability m) "local" then Some m
          else first_local c cat rest
      end
  end.

Definition find_fallback (c : AssetCatalog) (concept : string)
  (cat : option string) : option AssetManifest :=
  match dict_get (lower concept) (by_fallback c) with
  | Some candidates =>
      match first_local c cat candidates with
      | Some m => Some m
      | None =>
          match candidates with
          | aid :: _ => dict_get aid (by_id c)
          | [] => None
          end
      end
  | None => None
  end.

(** A Python subscript [d[k]], which raises [KeyError] on a missing key. *)
Inductive PyResult (A : Type) :=
| Return (a : A)
| KeyError (key : string).
Arguments Return {A} a.
Arguments KeyError {A} key.

Definition py_index {V} (d : Dict V) (k : string) : PyResult V :=
  match dict_get k d with Some v => Return v | None => KeyError k end.

(** [AssetCatalog.list_all(category)]. *)
Definition list_all (c : AssetCatalog) (cat : option string) : list AssetSummary :=
  if truthy_str cat
  then filter (fun s => String.eqb (s_category s) (or_str cat "")) (summaries c)
  else summaries c.

(** [AssetCatalog.best_match(text, category, prefer_local)]. *)
Definition best_match (c : AssetCatalog) (text : string) (cat : option string)
  (prefer_local : bool) : PyResult (option AssetManifest) :=
  let results := search c text cat 10 in
  let by_id_of (r : AssetSummary) :=
    match py_index (by_id c) (s_asset_id r) with
    | Return m => Return (Some m)
    | KeyError k => KeyError k
    end in
  match results with
  | [] => Return None
  | r0 :: _ =>
      if prefer_local then
        match filter (fun r => String.eqb (s_availability r) "local") results with
        | l0 :: _ => by_id_of l0
        | [] => by_id_of r0
        end
      else by_id_of r0
  end.

(** [AssetCatalog.resolve_asset(concept, category)]; a manifest is truthy. *)
Definition resolve_asset (c : AssetCatalog) (concept : string) (cat : option string)
  : PyResult (option AssetManifest) :=
  match best_match c concept cat true with
  | Return (Some m) => Return (Some m)
  | Return None => Return (find_fallback c concept cat)
  | KeyError k => KeyError k
  end.

(** [AssetCatalog.categories()], [len(catalog)], [asset_id in catalog]. *)
Definition categories (c : AssetCatalog) : list string := dict_keys (by_category c).
Definition catalog_len (c : AssetCatalog) : nat := List.length (by_id c).
Definition contains (c : AssetCatalog) (aid : string) : bool := dict_mem aid (by_id c).

Section Prompt.

(** [AssetSummary.to_dict()] reads [fallback_for] and [sensor_type], which
    the summaries above do not carry; it is left abstract. *)
Variable D : Type.
Variable to_dict : AssetSummary -> D.

(** [AssetCatalog.for_llm_prompt(local_only)]. *)
Definition for_llm_prompt (c : AssetCatalog) (local_only : bool) : Dict (list D) :=
  fold_left (fun res s =>
               if local_only && String.eqb (s_availability s) "remote" then res
               else dict_push (s_category s) (to_dict s) res)
    (summaries c) [].

End Prompt.

(** ** ElementTree ([xml.etree.ElementTree]) *)

#[local] Set Warnings "-register-all".

(** An element: tag, attributes in insertion order, children. *)
Inductive Element :=
| Elem (tag : string) (attrib : list (string * string)) (children : list Element).

Definition etag (e : Element) : string := let 'Elem t _ _ := e in t.
Definition eattrib (e : Element) : list (string * string) :=
  let 'Elem _ a _ := e in a.
Definition echildren (e : Element) : list Element := let 'Elem _ _ c := e in c.

(** [elem.get(k)]. *)
Definition eget (k : string) (e : Element) : option string := dict_get k (eattrib e).

(** [elem.set(k, v)]. *)
Definition eset (k v : string) (e : Element) : Element :=
  let 'Elem t a c := e in Elem t (dict_set k v a) c.

(** [elem.append(child)]. *)
Definition eappend (e : Element) (child : Element) : Element :=
  let 'Elem t a c := e in Elem t a (c ++ [child]).

(** [root.find(tag)]: the first child with that tag. *)
Definition efind (tag : string) (e : Element) : option Element :=
  find (fun c => String.eqb (etag c) tag) (echildren e).

(** [ET.Element(tag)] with attributes set in order. *)
Definition mk (tag : string) (attrs : list (string * string)) : Element :=
  Elem tag attrs [].

(** ** Fragment loading ([_load_asset_content]) *)

(** Outcome of lines 191-205 on a file's text: comments removed and the text
    stripped, it is empty, fails [ET.fromstring], or parses to a tree. *)
Inductive Parsed :=
| PEmpty
| PError
| PTree (root : Element).

Record Content := mkContent {
  c_worldbody : list Element;
  c_sensors : list Element;
  c_assets : list Element
}.

Definition empty_content : Content := mkContent [] [] [].

(** [collect_names]: pre-order, [name_map[n] = f"{prefix}_{n}"]. *)
Fixpoint collect_names (prefix : string) (e : Element) (nm : Dict string)
  : Dict string :=
  let 'Elem _ a c := e in
  let nm1 := match dict_get "name" a with
             | Some n => dict_set n (prefix ++ "_" ++ n)%string nm
             | None => nm
             end in
  fold_left (fun acc ch => collect_names prefix ch acc) c nm1.

Definition ref_attrs : list string :=
  ["site"; "material"; "mesh"; "texture"; "class"; "childclass"].

(** Lines 220-228 on one element's attributes. *)
Definition rename_attrs (nm : Dict string) (a : list (string * string))
  : list (string * string) :=
  let a1 := match dict_get "name" a with
            | Some n => match dict_get n nm with
                        | Some n' => dict_set "name" n' a
                        | None => a
                        end
            | None => a
            end in
  fold_left (fun acc r =>
               match dict_get r acc with
               | Some old => match dict_get old nm with
                             | Some nw => dict_set r nw acc
                             | None => acc
                             end
               | None => acc
               end) ref_attrs a1.

(** [rename_recursive]. *)
Fixpoint rename_recursive (nm : Dict string) (e : Element) : Element :=
  let 'Elem t a c := e in
  Elem t (rename_attrs nm a) (map (rename_recursive nm) c).

Definition section_children (s : option Element) : list Element :=
  match s with Some e => echildren e | None => [] end.

Definition collect_section (prefix : string) (s : option Element)
  (nm : Dict string) : Dict string :=
  match s with Some e => collect_names prefix e nm | None => nm end.

(** Lines 202-267 on a parsed file. *)
Definition content_of (prefix : string) (p : Parsed) : Content :=
  match p with
  | PEmpty | PError => empty_content
  | PTree root =>
      if String.eqb (etag root) "mujoco" then
        let nm := collect_section prefix (efind "sensor" root)
                    (collect_section prefix (efind "worldbody" root)
                       (collect_section prefix (efind "asset" root) [])) in
        mkContent
          (map (rename_recursive nm) (section_children (efind "worldbody" root)))
          (map (rename_recursive nm) (section_children (efind "sensor" root)))
          (map (rename_recursive nm) (section_children (efind "asset" root)))
      else
        let nm := collect_names prefix root [] in
        mkContent [rename_recursive nm root] [] []
  end.

Section Compiler.

(** The layout engine's generator and [math] functions, as above. *)
Variable RngState : Type.
Variable rng_new : Z -> RngState.
Variable rng_random : RngState -> float * RngState.
Variables math_cos math_sin : float -> float.
(** [math.atan2]. *)
Variable math_atan2 : float -> float -> float.
(** [_format_vec] ([f"{v:.4g}"] joined by spaces) and [str] of a float. *)
Variable format_vec : list float -> string.
Variable str_float : float -> string.
(** Lines 191-205: reading a file's text and parsing it. *)
Variable parse_fragment : string -> Parsed.
(** Lines 431-442: [ET.tostring], [minidom] pretty-printing, dropping the
    declaration and blank lines. *)
Variable tostring_pretty : Element -> string.

(** The file system: [Path.read_text], [None] when the file is missing. *)
Definition FileSystem := string -> option string.

(** [_load_asset_content(mjcf_path, prefix)]. *)
Definition load_asset_content (fs : FileSystem) (mjcf_path prefix : string)
  : Result Content :=
  match fs mjcf_path with
  | None => Err (FileNotFoundError mjcf_path)
  | Some text => Ok (content_of prefix (parse_fragment text))
  end.

(** [(path / manifest.mjcf_include).resolve()]. *)
Definition mjcf_path_of (folder include : string) : string :=
  (folder ++ "/" ++ include)%string.

Definition float_eqb (a b : float) : bool := PrimFloat.eqb a b.

(** [roll != 0 or pitch != 0 or yaw != 0]. *)
Definition nonzero3 (r p y : float) : bool :=
  negb (float_eqb r 0 && float_eqb p 0 && float_eqb y 0).

(** [_compute_look_at_euler]. *)
Definition look_at_euler (pos tgt : list float) : float * float * float :=
  let dx := (getf tgt 0 - getf pos 0)%float in
  let dy := (getf tgt 1 - getf pos 1)%float in
  let dz := (getf tgt 2 - getf pos 2)%float in
  let yaw := (math_atan2 dy dx * 180 / math_pi)%float in
  let hd := PrimFloat.sqrt (dx * dx + dy * dy) in
  let pitch := (- math_atan2 dz hd * 180 / math_pi)%float in
  (0%float, pitch, yaw).

(** Lines 334-351: the light elements. *)
Definition light_elem (ls : LightSpec) : Element :=
  let a1 := [("name", light_name ls); ("pos", format_vec (light_position ls))] in
  let a2 := match direction ls with
            | Some (_ :: _ as d) => a1 ++ [("dir", format_vec d)]
            | _ => a1
            end in
  let a3 := a2 ++ [("diffuse", format_vec (diffuse ls));
                   ("specular", format_vec (specular ls))] in
  let a4 := if String.eqb (light_type ls) "directional"
            then a3 ++ [("directional", "true")] else a3 in
  mk "light" a4.

Definition default_light : Element :=
  mk "light" [("name", "default_light"); ("pos", "0 0 10");
              ("dir", "0 0 -1"); ("diffuse", "1 1 1")].

Definition light_elems (sc : SceneSpec) : list Element :=
  match lights sc with
  | [] => [default_light]
  | ls => map light_elem ls
  end.

(** Lines 409-422: one camera element. *)
Definition camera_elem (cam : CameraSpec) : Element :=
  let p := cam_pose cam in
  let a1 := [("name", cam_name cam); ("pos", format_vec (position p));
             ("fovy", str_float (fovy cam))] in
  match target cam with
  | Some (_ :: _ as t) =>
      let '(r, pi, y) := look_at_euler (position p) t in
      mk "camera" (a1 ++ [("euler", format_vec [r; pi; y])])
  | _ =>
      if nonzero3 (roll_deg p) (pitch_deg p) (yaw_deg p)
      then mk "camera" (a1 ++ [("euler", format_vec [roll_deg p; pitch_deg p; yaw_deg p])])
      else mk "camera" a1
  end.

(** Lines 386-390: the body name of the [idx]-th instance. *)
Definition body_name_of (base : string) (idx : nat) (inst : InstanceSpec) : string :=
  match name_suffix inst with
  | Some (String _ _ as sfx) => (base ++ "_" ++ sfx)%string
  | _ => (base ++ "_" ++ str_of_nat idx)%string
  end.

(** Lines 393-398: the attributes of an instance body. *)
Definition body_attrs (name : string) (inst : InstanceSpec) : list (string * string) :=
  let p := pose inst in
  [("name", name); ("pos", format_vec (position p))]
  ++ (if nonzero3 (roll_deg p) (pitch_deg p) (yaw_deg p)
      then [("euler", format_vec [roll_deg p; pitch_deg p; yaw_deg p])] else []).

(** What the loops have appended so far: bodies to [worldbody], elements to
    [asset] after the defaults, and [all_sensors]. *)
Record Acc := mkAcc {
  a_bodies : list Element;
  a_assets : list Element;
  a_sensors : list Element
}.

(** [for idx, inst in enumerate(instances)] (lines 382-406). *)
Fixpoint instance_bodies (fs : FileSystem) (mjcf_path base : string) (idx : nat)
  (insts : list InstanceSpec) (acc : Acc) : Result Acc :=
  match insts with
  | [] => Ok acc
  | inst :: rest =>
      let name := body_name_of base idx inst in
      let* cont := load_asset_content fs mjcf_path name in
      instance_bodies fs mjcf_path base (S idx) rest
        (mkAcc (a_bodies acc ++ [Elem "body" (body_attrs name inst) (c_worldbody cont)])
               (a_assets acc ++ c_assets cont)
               (a_sensors acc ++ c_sensors cont))
  end.

(** [for obj in scene.objects] (lines 374-406). *)
Fixpoint object_bodies (fs : FileSystem) (cat : AssetCatalog) (seed : Z)
  (objs : list ObjectSpec) (acc : Acc) : Result Acc :=
  match objs with
  | [] => Ok acc
  | obj :: rest =>
      let* m := get cat (o_asset_id obj) in
      let* folder := get_path cat (o_asset_id obj) in
      let insts := layout_instances RngState rng_new rng_random math_cos math_sin obj seed in
      let base := or_str (o_name obj) (o_asset_id obj) in
      let* acc' := instance_bodies fs (mjcf_path_of folder (mjcf_include m)) base 0 insts acc in
      object_bodies fs cat seed rest acc'
  end.

Definition default_texture : Element :=
  mk "texture" [("name", "grid"); ("type", "2d"); ("builtin", "checker");
                ("width", "512"); ("height", "512");
                ("rgb1", "0.2 0.3 0.4"); ("rgb2", "0.1 0.2 0.3")].

Definition default_material : Element :=
  mk "material" [("name", "grid_mat"); ("texture", "grid");
                 ("texrepeat", "8 8"); ("reflectance", "0.2")].

(** Lines 286-305: [compiler], [option] and [visual]. *)
Definition header (sc : SceneSpec) : list Element :=
  [mk "compiler" [("angle", "degree"); ("coordinate", "local")];
   mk "option" [("timestep", str_float (timestep (physics sc)));
                ("iterations", str_of_nat (iterations (physics sc)));
                ("solver", solver (physics sc));
                ("integrator", integrator (physics sc));
                ("gravity", format_vec (gravity (environment sc)))];
   Elem "visual" [] [mk "headlight" [("diffuse", "0.6 0.6 0.6");
                                     ("ambient", "0.3 0.3 0.3")]]].

(** The tree built by [scene_to_mjcf] before serialization (lines 286-428). *)
Definition build_mjcf (fs : FileSystem) (sc : SceneSpec) (cat : AssetCatalog)
  (seed : Z) : Result Element :=
  let env_id := env_asset_id (environment sc) in
  let* env_m := get cat env_id in
  let* env_path := get_path cat env_id in
  let env_name := ("env_" ++ env_id)%string in
  let* env_c := load_asset_content fs (mjcf_path_of env_path (mjcf_include env_m)) env_name in
  let env_body := Elem "body" [("name", env_name); ("pos", "0 0 0")] (c_worldbody env_c) in
  let* acc := object_bodies fs cat seed (objects sc)
                (mkAcc [] (c_assets env_c) (c_sensors env_c)) in
  let worldbody :=
    Elem "worldbody" []
      (light_elems sc ++ env_body :: a_bodies acc ++ map camera_elem (cameras sc)) in
  let asset := Elem "asset" [] (default_texture :: default_material :: a_assets acc) in
  let sensor := match a_sensors acc with
                | [] => []
                | ss => [Elem "sensor" [] ss]
                end in
  Ok (Elem "mujoco" [("model", scene_name sc)] (header sc ++ [asset; worldbody] ++ sensor)).

(** [scene_to_mjcf(scene, catalog, seed)]. *)
Definition scene_to_mjcf (fs : FileSystem) (sc : SceneSpec) (cat : AssetCatalog)
  (seed : Z) : Result string :=
  let* doc := build_mjcf fs sc cat seed in
  Ok (tostring_pretty doc).

End Compiler.

(** * Concrete inputs

    A small linear congruential generator and identity trigonometry stand in
    for [random.Random] and [math] when a statement is evaluated on an
    example; the statements themselves hold for any generator. *)

Definition lcg_new (seed : Z) : nat := Z.to_nat (seed mod 97).
Definition lcg_random (n : nat) : float * nat :=
  ((float_of_nat (n mod 97) / 97)%float, (n * 31 + 7) mod 97).
Definition id_float (x : float) : float := x.

(** Example scenario 1 of the spec: a 2 x 3 grid of crates. *)
Definition crate_grid_layout : GridLayout :=
  mkGrid [0; 0; 0]%float 2 3 [1; 1]%float 0%float.
Definition crate_grid : ObjectSpec :=
  mkObject "crate" None (Some (LGrid crate_grid_layout)) None.

(** Three crates scattered with a separation no disk of radius 5 allows. *)
Definition dense_random_layout : RandomLayout :=
  mkRandom [10; 10; 0]%float 5%float 3 100%float true.
Definition dense_random : ObjectSpec :=
  mkObject "crate" None (Some (LRandom dense_random_layout)) None.
Definition dense_random_named : ObjectSpec :=
  mkObject "crate" (Some "other") (Some (LRandom dense_random_layout)) None.

(** A manifest with the fields the catalog reads; its fragment is
    [model.xml] and its semantics are empty. *)
Definition manifest (aid name cat : string) (tgs fb : list string) (avail : string)
  : AssetManifest :=
  mkManifest aid name cat tgs fb avail "model.xml" (mkSemantics [] []).

(** Two ids sharing a three-letter prefix, scanned prefix-only match first. *)
Definition prefix_catalog : AssetCatalog :=
  scan [("assets/abcxyz", Some (manifest "abcxyz" "Abc xyz" "prop" [] [] "local"));
        ("assets/abcdef_box", Some (manifest "abcdef_box" "Abc box" "prop" [] [] "local"))].

(** A crate whose id is the query, and a bigger crate whose name is. *)
Definition crate_exact : AssetSummary :=
  mkSummary "crate" "Box" "prop" [] "local" "assets/crate".
Definition crate_partial : AssetSummary :=
  mkSummary "crate_big" "Crate" "prop" [] "local" "assets/crate_big".
Definition crate_catalog : AssetCatalog :=
  scan [("assets/crate", Some (manifest "crate" "Box" "prop" [] [] "local"));
        ("assets/crate_big", Some (manifest "crate_big" "Crate" "prop" [] [] "local"))].

(** Two substitutes for a tractor: a local toy prop, then a remote vehicle. *)
Definition toy_tractor : AssetManifest :=
  manifest "toy_tractor" "Toy tractor" "prop" [] ["tractor"] "local".
Definition remote_tractor : AssetManifest :=
  manifest "tractor_remote" "Remote tractor" "vehicle" [] ["tractor"] "remote".
Definition fallback_catalog : AssetCatalog :=
  scan [("assets/toy_tractor", Some toy_tractor);
        ("assets/tractor_remote", Some remote_tractor)].

(** The same two ids, the bigger crate no longer named after the query. *)
Definition big_box : AssetSummary :=
  mkSummary "crate_big" "Big box" "prop" [] "local" "assets/crate_big".
Definition box_catalog : AssetCatalog :=
  scan [("assets/crate", Some (manifest "crate" "Box" "prop" [] [] "local"));
        ("assets/crate_big", Some (manifest "crate_big" "Big box" "prop" [] [] "local"))].

(** Fragments: a crate with a material and a geom using it, a ground. *)
Definition crate_fragment : Element :=
  Elem "mujoco" []
    [Elem "asset" [] [mk "material" [("name", "wood")]];
     Elem "worldbody" [] [mk "geom" [("name", "box"); ("material", "wood")]]].
Definition ground_fragment : Element :=
  Elem "mujoco" [] [Elem "worldbody" [] [mk "geom" [("name", "floor")]]].

(** [ET.fromstring] on the sample files' texts. *)
Definition sample_parse (text : string) : Parsed :=
  if String.eqb text "crate xml" then PTree crate_fragment
  else if String.eqb text "ground xml" then PTree ground_fragment
  else if String.eqb text "" then PEmpty
  else PError.

(** The sample asset tree: [broken] holds an unparsable fragment and the
    fragment of [lost] is missing. *)
Definition sample_fs (path : string) : option string :=
  if String.eqb path "assets/crate/model.xml" then Some "crate xml"
  else if String.eqb path "assets/ground/model.xml" then Some "ground xml"
  else if String.eqb path "assets/broken/model.xml" then Some "<mujoco><worldbody>"
  else None.

Definition sample_catalog : AssetCatalog :=
  scan [("assets/ground", Some (manifest "ground" "Ground" "environment" [] [] "local"));
        ("assets/crate", Some (manifest "crate" "Crate" "prop" [] [] "local"));
        ("assets/broken", Some (manifest "broken" "Broken" "prop" [] [] "local"));
        ("assets/lost", Some (manifest "lost" "Lost" "prop" [] [] "local"))].

Definition sample_physics : PhysicsSpec := mkPhysics 0x1.0624dd2f1a9fcp-9%float "Newton" 50 "implicitfast".
Definition ground_env : EnvironmentSpec := mkEnv "ground" [0; 0; -0x1.39eb851eb851fp+3]%float.

(** A crate without name, layout or instances: one instance at the origin. *)
Definition plain_crate : ObjectSpec := mkObject "crate" None None None.

(** Two objects of the same asset, neither named. *)
Definition two_crates_scene : SceneSpec :=
  mkScene "two_crates" ground_env [plain_crate; plain_crate] [] [] sample_physics.

(** An object whose fragment does not parse. *)
Definition broken_scene : SceneSpec :=
  mkScene "broken" ground_env [mkObject "broken" None None None] [] [] sample_physics.

(** Stand-ins for float formatting, [math.atan2] and serialization. *)
Definition sample_format_vec (v : list float) : string := "v".
Definition sample_str_float (x : float) : string := "f".
Definition sample_atan2 (y x : float) : float := 0%float.
Fixpoint sample_tostring (e : Element) : string :=
  let 'Elem t _ c := e in
  ("<" ++ t ++ ">" ++ String.concat "" (map sample_tostring c) ++ "</" ++ t ++ ">")%string.

(** Every [name] attribute of a document, in document order. *)
Fixpoint all_names (e : Element) : list string :=
  let 'Elem _ a c := e in
  match dict_get "name" a with Some n => [n] | None => [] end
  ++ flat_map all_names c.

(** [build_mjcf] on the sample inputs. *)
Definition sample_build (sc : SceneSpec) : Result Element :=
  build_mjcf nat lcg_new lcg_random id_float id_float sample_atan2 sample_format_vec
    sample_str_float sample_parse sample_fs sc sample_catalog 42.

Definition doc_of (r : Result Element) : Element :=
  match r with Ok d => d | Err _ => Elem "" [] [] end.
Definition two_crates_doc : Element := doc_of (sample_build two_crates_scene).
Definition broken_doc : Element := doc_of (sample_build broken_scene).

(** * Properties of the layout engine *)

Section LayoutProofs.

Variable RngState : Type.
Variable rng_new : Z -> RngState.
Variable rng_random : RngState -> float * RngState.
Variables math_cos math_sin : float -> float.

Local Abbreviation layout_inst := (layout_instances RngState rng_new rng_random math_cos math_sin).
Local Abbreviation gcols := (grid_cols RngState rng_random).
Local Abbreviation grows := (grid_rows RngState rng_random).

Definition inst_pos (i : InstanceSpec) : list float := position (pose i).

(** The position the grid gives to cell (row, col). *)
Definition grid_pos (g : GridLayout) (row col : nat) : list float :=
  [(getf (g_origin g) 0 + float_of_nat col * getf (spacing g) 0)%float;
   (getf (g_origin g) 1 + float_of_nat row * getf (spacing g) 1)%float;
   getf (g_origin g) 2].

Lemma grid_cell_pos (g : GridLayout) (row col : nat) (st : RngState) :
  inst_pos (fst (grid_cell RngState rng_random g row col st)) = grid_pos g row col.
Proof.
  unfold grid_cell.
  destruct (PrimFloat.ltb 0 (yaw_variation_deg g));
    [destruct (rng_uniform RngState rng_random _ _ st)|]; reflexivity.
Qed.

Lemma grid_cols_pos (g : GridLayout) (row : nat) :
  forall left col st,
    map inst_pos (fst (gcols g row col left st)) = map (grid_pos g row) (seq col left).
Proof.
  induction left as [|left IH]; intros col st; [reflexivity|].
  simpl.
  pose proof (grid_cell_pos g row col st) as Hc.
  destruct (grid_cell RngState rng_random g row col st) as [i st1].
  specialize (IH (S col) st1).
  destruct (gcols g row (S col) left st1) as [is st2].
  simpl in *. rewrite Hc, IH. reflexivity.
Qed.

Lemma grid_rows_pos (g : GridLayout) :
  forall left row st,
    map inst_pos (fst (grows g row left st))
    = flat_map (fun r => map (grid_pos g r) (seq 0 (cols g))) (seq row left).
Proof.
  induction left as [|left IH]; intros row st; [reflexivity|].
  simpl.
  destruct (gcols g row 0 (cols g) st) as [is st1] eqn:E1.
  destruct (grows g (S row) left st1) as [js st2] eqn:E2.
  simpl. rewrite map_app. f_equal.
  - pose proof (grid_cols_pos g row (cols g) 0 st) as H. rewrite E1 in H. exact H.
  - specialize (IH (S row) st1). rewrite E2 in IH. exact IH.
Qed.

Lemma nth_error_flat_map_seq {A} (f : nat -> nat -> A) (n : nat) :
  forall m a r c, r < m -> c < n ->
    nth_error (flat_map (fun r => map (f r) (seq 0 n)) (seq a m)) (r * n + c)
    = Some (f (a + r) c).
Proof.
  induction m as [|m IH]; intros a r c Hr Hc; [lia|].
  simpl. destruct r as [|r].
  - rewrite nth_error_app1 by (rewrite length_map, length_seq; lia).
    rewrite nth_error_map, nth_error_seq by lia.
    rewrite Nat.add_0_r. simpl. destruct (Nat.ltb_spec c n); [reflexivity | lia].
  - rewrite nth_error_app2 by (rewrite length_map, length_seq; simpl; lia).
    rewrite length_map, length_seq.
    replace (S r * n + c - n) with (r * n + c) by (simpl; lia).
    rewrite IH by lia. f_equal. f_equal. lia.
Qed.

Lemma length_flat_map_seq {A} (f : nat -> nat -> A) (n : nat) :
  forall m a, List.length (flat_map (fun r => map (f r) (seq 0 n)) (seq a m)) = m * n.
Proof.
  induction m as [|m IH]; intros a; [reflexivity|].
  simpl. rewrite length_app, length_map, length_seq, IH. lia.
Qed.

Lemma valid_layout_no_instances (o : ObjectSpec) (L : Layout) :
  object_valid o = true -> layout o = Some L -> instances o = None.
Proof.
  unfold object_valid. intros Hv Hl. rewrite Hl in Hv.
  destruct (instances o); [discriminate | reflexivity].
Qed.

(** Successive draws of the attempt loop. *)
Fixpoint draws (l : RandomLayout) (k : nat) (st : RngState) : list (float * float) :=
  match k with
  | 0 => []
  | S k' => let '(p, st1) := draw_point RngState rng_random math_cos math_sin l st in
            p :: draws l k' st1
  end.

Lemma last_default_irrel {A} (d1 d2 : A) (ds : list A) :
  forall x, List.last (x :: ds) d1 = List.last (x :: ds) d2.
Proof.
  induction ds as [|y ds IH]; intros x; [reflexivity|].
  change (List.last (y :: ds) d1 = List.last (y :: ds) d2). apply IH.
Qed.

Lemma last_cons_default {A} (q d : A) (ds : list A) :
  List.last (q :: ds) d = List.last ds q.
Proof.
  destruct ds as [|x ds]; [reflexivity|].
  change (List.last (x :: ds) d = List.last (x :: ds) q). apply last_default_irrel.
Qed.

Lemma try_place_exhausted (l : RandomLayout) (placed : list (float * float)) :
  forall k last st p st',
    try_place RngState rng_random math_cos math_sin l k placed last st = (p, false, st') ->
    p = List.last (draws l k st) last
    /\ Forall (fun q => accept l placed q = false) (draws l k st).
Proof.
  induction k as [|k IH]; intros last st p st' H.
  - simpl in H. inversion H. subst. split; [reflexivity | constructor].
  - simpl in H |- *.
    destruct (draw_point RngState rng_random math_cos math_sin l st) as [q st1].
    destruct (accept l placed q) eqn:Ea; [discriminate|].
    destruct (IH q st1 p st' H) as [Hp Hall].
    split; [rewrite last_cons_default; exact Hp | constructor; assumption].
Qed.

Lemma random_points_length (l : RandomLayout) :
  forall left i placed st,
    List.length (random_points RngState rng_random math_cos math_sin l i left placed st)
    = left.
Proof.
  induction left as [|left IH]; intros i placed st; [reflexivity|].
  cbn [random_points].
  destruct (try_place RngState rng_random math_cos math_sin l max_attempts placed
              (0%float, 0%float) st) as [[p ok] st1].
  destruct (random_yaw l);
    [destruct (rng_uniform RngState rng_random 0 360 st1) as [yaw st2]|];
    cbn [List.length]; rewrite IH; reflexivity.
Qed.

End LayoutProofs.

Section LayoutClaims.

Variable RngState : Type.
Variable rng_new : Z -> RngState.
Variable rng_random : RngState -> float * RngState.
Variables math_cos math_sin : float -> float.

Local Abbreviation layout_inst := (layout_instances RngState rng_new rng_random math_cos math_sin).

(** C4: a grid layout yields exactly [rows * cols] instances in row-major
    order, the instance of cell (row, col) standing at
    (origin[0] + col * spacing[0], origin[1] + row * spacing[1], origin[2]). *)
Theorem grid_layout_row_major (o : ObjectSpec) (g : GridLayout) (seed : Z)
  (Hvalid : object_valid o = true) (Hg : layout o = Some (LGrid g)) :
  List.length (layout_inst o seed) = rows g * cols g
  /\ forall r c, r < rows g -> c < cols g ->
       option_map inst_pos (nth_error (layout_inst o seed) (r * cols g + c))
       = Some [(getf (g_origin g) 0 + float_of_nat c * getf (spacing g) 0)%float;
               (getf (g_origin g) 1 + float_of_nat r * getf (spacing g) 1)%float;
               getf (g_origin g) 2].
Proof.
  pose proof (valid_layout_no_instances o _ Hvalid Hg) as Hi.
  unfold layout_instances, grid_instances. rewrite Hi, Hg.
  pose proof (grid_rows_pos RngState rng_random g (rows g) 0 (rng_new seed)) as Hp.
  split.
  - rewrite <- (length_map inst_pos), Hp. apply length_flat_map_seq.
  - intros r c Hr Hc.
    rewrite <- nth_error_map, Hp, nth_error_flat_map_seq by assumption.
    reflexivity.
Qed.

(** C3: a random layout yields exactly [count] instances; when none of the
    [max_attempts] (100) draws for a point keeps the minimum separation, the
    point used is the last one drawn. *)
Theorem random_layout_count (o : ObjectSpec) (l : RandomLayout) (seed : Z)
  (Hvalid : object_valid o = true) (Hl : layout o = Some (LRandom l)) :
  List.length (layout_inst o seed) = count l
  /\ forall placed st p st',
       try_place RngState rng_random math_cos math_sin l max_attempts placed
         (0%float, 0%float) st = (p, false, st') ->
       p = List.last (draws RngState rng_random math_cos math_sin l max_attempts st)
             (0%float, 0%float)
       /\ Forall (fun q => accept l placed q = false)
            (draws RngState rng_random math_cos math_sin l max_attempts st).
Proof.
  pose proof (valid_layout_no_instances o _ Hvalid Hl) as Hi.
  split.
  - unfold layout_instances, random_instances. rewrite Hi, Hl.
    apply random_points_length.
  - intros placed st p st' H. exact (try_place_exhausted _ _ _ _ l placed _ _ _ _ _ H).
Qed.

(** C10: every layout expansion seeds its own generator from the same
    seed, so two valid objects with equal layouts get identical instance
    lists, hence identical poses. *)
Theorem same_layout_same_instances (o1 o2 : ObjectSpec) (L : Layout) (seed : Z)
  (Hv1 : object_valid o1 = true) (Hv2 : object_valid o2 = true)
  (H1 : layout o1 = Some L) (H2 : layout o2 = Some L) :
  layout_inst o1 seed = layout_inst o2 seed.
Proof.
  unfold layout_instances.
  rewrite (valid_layout_no_instances o1 L Hv1 H1),
          (valid_layout_no_instances o2 L Hv2 H2), H1, H2.
  reflexivity.
Qed.

End LayoutClaims.

Lemma grid_layout_row_major_witness :
  object_valid crate_grid = true
  /\ layout crate_grid = Some (LGrid crate_grid_layout)
  /\ List.length (layout_instances nat lcg_new lcg_random id_float id_float crate_grid 42)
     = rows crate_grid_layout * cols crate_grid_layout.
Proof.
  split; [reflexivity|]. split; [reflexivity|].
  apply (proj1 (grid_layout_row_major nat lcg_new lcg_random id_float id_float
                  crate_grid crate_grid_layout 42 eq_refl eq_refl)).
Defined.

Example crate_grid_positions :
  map inst_pos (layout_instances nat lcg_new lcg_random id_float id_float crate_grid 42)
  = [[0; 0; 0]; [1; 0; 0]; [2; 0; 0]; [0; 1; 0]; [1; 1; 0]; [2; 1; 0]]%float.
Proof. vm_compute. reflexivity. Qed.

Lemma random_layout_count_witness :
  object_valid dense_random = true
  /\ layout dense_random = Some (LRandom dense_random_layout)
  /\ List.length (layout_instances nat lcg_new lcg_random id_float id_float dense_random 42)
     = count dense_random_layout.
Proof.
  split; [reflexivity|]. split; [reflexivity|].
  apply (proj1 (random_layout_count nat lcg_new lcg_random id_float id_float
                  dense_random dense_random_layout 42 eq_refl eq_refl)).
Defined.

Lemma same_layout_same_instances_witness :
  object_valid dense_random = true /\ object_valid dense_random_named = true
  /\ layout dense_random = Some (LRandom dense_random_layout)
  /\ layout dense_random_named = Some (LRandom dense_random_layout)
  /\ layout_instances nat lcg_new lcg_random id_float id_float dense_random 7
     = layout_instances nat lcg_new lcg_random id_float id_float dense_random_named 7.
Proof.
  split; [reflexivity|]. split; [reflexivity|].
  split; [reflexivity|]. split; [reflexivity|].
  apply (same_layout_same_instances nat lcg_new lcg_random id_float id_float
           dense_random dense_random_named (LRandom dense_random_layout) 7);
    reflexivity.
Defined.

(** * Properties of the asset catalog *)

(** The claim's notion of a shared three-character prefix. *)
Definition shares_prefix3 (a b : string) : bool :=
  Nat.leb 3 (String.length a) && Nat.leb 3 (String.length b)
  && String.eqb (take 3 a) (take 3 b).

Lemma startswith_take (s : string) :
  forall n, startswith s (substring 0 n s) = true.
Proof.
  induction s as [|c s IH]; intros [|n]; try reflexivity.
  simpl. rewrite Ascii.eqb_refl. apply IH.
Qed.

Lemma take_length (s : string) :
  forall n, String.length s <= n -> substring 0 n s = s.
Proof.
  induction s as [|c s IH]; intros [|n] H; simpl in *; try reflexivity; try lia.
  rewrite IH by lia. reflexivity.
Qed.

Lemma length_take (s : string) :
  forall n, String.length (substring 0 n s) = Nat.min n (String.length s).
Proof.
  induction s as [|c s IH]; intros [|n]; simpl; try reflexivity.
  rewrite IH. reflexivity.
Qed.

Lemma str_in_startswith (needle hay : string) :
  startswith hay needle = true -> str_in needle hay = true.
Proof. intros H. destruct hay; cbn [str_in]; rewrite H; reflexivity. Qed.

(** A shared three-character prefix is caught by [similar]. *)
Lemma shares_prefix3_similar (ql e : string) :
  shares_prefix3 ql (lower e) = true -> similar ql e = true.
Proof.
  unfold shares_prefix3, similar. intros H.
  apply andb_prop in H as [H Heq]. apply andb_prop in H as [Hq He].
  apply Nat.leb_le in Hq, He. apply String.eqb_eq in Heq.
  destruct (Nat.ltb_spec 3 (String.length ql)) as [Hlt|Hge].
  - destruct (_ || _); [reflexivity|].
    simpl. rewrite Heq. apply startswith_take.
  - (* a query of three letters is the shared prefix itself *)
    assert (Hq3 : take 3 ql = ql) by (apply take_length; lia).
    rewrite Hq3 in Heq.
    assert (Hs : str_in ql (lower e) = true)
      by (apply str_in_startswith; rewrite Heq; apply startswith_take).
    rewrite Hs. reflexivity.
Qed.

Lemma collect_similar_filter (ql : string) (ids : list string) :
  collect_similar ql ids = filter (similar ql) ids.
Proof.
  induction ids as [|e ids IH]; simpl; [reflexivity|].
  rewrite IH. reflexivity.
Qed.

(** C5 (as amended): looking up an id absent from the catalog raises
    [AssetNotFoundError] with at most three suggestions, which are the first
    three matching catalog ids in scan order; the list is non-empty as soon
    as some id shares a substring (either direction) or a three-character
    prefix with the query, case-insensitively. *)
Theorem get_missing_suggestions (c : AssetCatalog) (aid : string)
  (Hmiss : dict_get aid (by_id c) = None) :
  exists sugg,
    get c aid = Err (AssetNotFoundError aid sugg)
    /\ sugg = firstn 3 (filter (similar (lower aid)) (dict_keys (by_id c)))
    /\ List.length sugg <= 3
    /\ ((exists e, In e (dict_keys (by_id c))
                   /\ (str_in (lower aid) (lower e) || str_in (lower e) (lower aid)
                       || shares_prefix3 (lower aid) (lower e)) = true)
        -> sugg <> []).
Proof.
  exists (firstn 3 (filter (similar (lower aid)) (dict_keys (by_id c)))).
  split; [|split; [reflexivity|split]].
  - unfold get, find_similar. rewrite Hmiss, collect_similar_filter. reflexivity.
  - rewrite length_firstn. lia.
  - intros [e [Hin He]].
    assert (Hs : similar (lower aid) e = true).
    { apply orb_true_iff in He as [He|He].
      - unfold similar. rewrite He. reflexivity.
      - apply shares_prefix3_similar. exact He. }
    assert (Hf : In e (filter (similar (lower aid)) (dict_keys (by_id c))))
      by (apply filter_In; split; assumption).
    destruct (filter (similar (lower aid)) (dict_keys (by_id c))); [contradiction|].
    discriminate.
Qed.

Lemma get_missing_suggestions_witness :
  dict_get "abcdef" (by_id prefix_catalog) = None
  /\ exists sugg,
       get prefix_catalog "abcdef" = Err (AssetNotFoundError "abcdef" sugg)
       /\ sugg = firstn 3 (filter (similar (lower "abcdef")) (dict_keys (by_id prefix_catalog)))
       /\ List.length sugg <= 3
       /\ ((exists e, In e (dict_keys (by_id prefix_catalog))
                      /\ (str_in (lower "abcdef") (lower e) || str_in (lower e) (lower "abcdef")
                          || shares_prefix3 (lower "abcdef") (lower e)) = true)
           -> sugg <> []).
Proof.
  split; [vm_compute; reflexivity|].
  apply get_missing_suggestions. vm_compute. reflexivity.
Defined.

(** C5 as stated fails: the suggestions are not grouped by kind.  For the
    query "abcdef" the prefix-only match "abcxyz" is suggested before the
    substring match "abcdef_box", because it was scanned first. *)
Lemma get_suggestions_not_prioritised :
  get prefix_catalog "abcdef"
    = Err (AssetNotFoundError "abcdef" ["abcxyz"; "abcdef_box"])
  /\ (str_in "abcdef" "abcxyz" || str_in "abcxyz" "abcdef") = false
  /\ shares_prefix3 "abcdef" "abcxyz" = true
  /\ str_in "abcdef" "abcdef_box" = true.
Proof. vm_compute. repeat split. Qed.

(** [sort_desc] orders by non-increasing score. *)
Definition score_ge {A} (x y : nat * A) : Prop := fst y <= fst x.

Lemma insert_desc_in {A} (x y : nat * A) (l : list (nat * A)) :
  In y (insert_desc x l) -> y = x \/ In y l.
Proof.
  induction l as [|z l IH]; simpl.
  - intros [H|[]]. left. symmetry. exact H.
  - destruct (Nat.ltb (fst z) (fst x)); simpl.
    + intros [H|[H|H]]; [left; symmetry; exact H|right; left; exact H|right; right; exact H].
    + intros [H|H]; [right; left; exact H|].
      destruct (IH H); [left; assumption|right; right; assumption].
Qed.

Lemma insert_desc_sorted {A} (x : nat * A) (l : list (nat * A)) :
  StronglySorted score_ge l -> StronglySorted score_ge (insert_desc x l).
Proof.
  induction l as [|z l IH]; intros Hs; simpl.
  - constructor; constructor.
  - inversion Hs as [|? ? Hl Hz]; subst.
    destruct (Nat.ltb_spec (fst z) (fst x)) as [Hlt|Hge].
    + constructor; [exact Hs|].
      constructor; [unfold score_ge; lia|].
      eapply Forall_impl; [|exact Hz]. unfold score_ge. intros w Hw. lia.
    + constructor; [apply IH; exact Hl|].
      apply Forall_forall. intros w Hw.
      destruct (insert_desc_in x w l Hw) as [->|Hin].
      * unfold score_ge. lia.
      * exact (proj1 (Forall_forall _ _) Hz w Hin).
Qed.

Lemma sort_desc_sorted_acc {A} (l acc : list (nat * A)) :
  StronglySorted score_ge acc ->
  StronglySorted score_ge (fold_left (fun acc x => insert_desc x acc) l acc).
Proof.
  revert acc. induction l as [|x l IH]; intros acc Hs; simpl; [exact Hs|].
  apply IH. apply insert_desc_sorted. exact Hs.
Qed.

Lemma sort_desc_in_acc {A} (y : nat * A) (l acc : list (nat * A)) :
  In y (fold_left (fun acc x => insert_desc x acc) l acc) -> In y l \/ In y acc.
Proof.
  revert acc. induction l as [|x l IH]; intros acc H; simpl in *; [right; exact H|].
  destruct (IH _ H) as [H1|H1]; [left; right; exact H1|].
  destruct (insert_desc_in x y acc H1) as [->|H2]; [left; left; reflexivity|right; exact H2].
Qed.

Lemma in_firstn {A} (w : A) (n : nat) (l : list A) : In w (firstn n l) -> In w l.
Proof. intros H. rewrite <- (firstn_skipn n l). apply in_or_app. left. exact H. Qed.

Lemma StronglySorted_firstn {A} (R : A -> A -> Prop) (l : list A) :
  forall n, StronglySorted R l -> StronglySorted R (firstn n l).
Proof.
  induction l as [|x l IH]; intros [|n] Hs; simpl; try constructor.
  - inversion Hs; subst. apply IH. assumption.
  - inversion Hs as [|? ? Hl Hx]; subst.
    apply Forall_forall. intros w Hw.
    exact (proj1 (Forall_forall _ _) Hx w (in_firstn _ _ _ Hw)).
Qed.

Lemma StronglySorted_nth {A} (R : A -> A -> Prop) (l : list A) :
  StronglySorted R l ->
  forall i j x y, i < j -> nth_error l i = Some x -> nth_error l j = Some y -> R x y.
Proof.
  induction l as [|z l IH]; intros Hs i j x y Hij Hi Hj; [destruct i; discriminate|].
  inversion Hs as [|? ? Hl Hz]; subst.
  destruct i as [|i], j as [|j]; try lia; simpl in Hi, Hj.
  - inversion Hi; subst.
    exact (proj1 (Forall_forall _ _) Hz y (nth_error_In _ _ Hj)).
  - apply (IH Hl i j); [lia | assumption | assumption].
Qed.

Lemma scored_score (c : AssetCatalog) (q : string) (cat : option string)
  (l : list AssetSummary) (p : nat * AssetSummary) :
  In p (scored c q cat l) -> fst p = score c (snd p) q.
Proof.
  induction l as [|s l IH]; simpl; [intros []|].
  destruct (filtered_out cat s); [exact IH|].
  destruct (Nat.ltb 0 (score c s q)); [|exact IH].
  intros [<-|H]; [reflexivity | exact (IH H)].
Qed.

(** A summary at position [i] of [search] comes with its score. *)
Lemma search_nth (c : AssetCatalog) (q : string) (cat : option string) (limit i : nat)
  (a : AssetSummary) :
  nth_error (search c q cat limit) i = Some a ->
  nth_error (firstn limit (sort_desc (scored c q cat (summaries c)))) i
  = Some (score c a q, a).
Proof.
  unfold search. rewrite nth_error_map.
  destruct (nth_error (firstn limit (sort_desc (scored c q cat (summaries c)))) i)
    as [[sc s]|] eqn:E; simpl; intros H; inversion H; subst.
  apply nth_error_In, in_firstn, sort_desc_in_acc in E as E'.
  destruct E' as [E'|[]]. apply scored_score in E'. simpl in E'. subst. reflexivity.
Qed.

(** C6 (as amended): in a search result, an asset whose id equals the query
    (case-insensitively) is ranked strictly before an asset whose id only
    contains the query whenever the exact asset's total score is higher,
    that is, when the partial asset's name, tag and semantic signals do not
    add 50 or more over the exact asset's. *)
Theorem search_exact_before_partial (c : AssetCatalog) (q : string)
  (cat : option string) (limit : nat) (a b : AssetSummary)
  (Ha : String.eqb (lower q) (lower (s_asset_id a)) = true)
  (Hb1 : String.eqb (lower q) (lower (s_asset_id b)) = false)
  (Hb2 : str_in (lower q) (lower (s_asset_id b)) = true)
  (Hrest : rest_score c b q < rest_score c a q + 50) :
  forall i j,
    nth_error (search c q cat limit) i = Some a ->
    nth_error (search c q cat limit) j = Some b -> i < j.
Proof.
  intros i j Hi Hj.
  apply search_nth in Hi, Hj.
  assert (Hgt : score c b q < score c a q).
  { unfold score, id_score, match_score. rewrite Ha, Hb1, Hb2. lia. }
  destruct (Nat.lt_trichotomy i j) as [Hlt|[->|Hgt']]; [exact Hlt| |].
  - rewrite Hi in Hj. inversion Hj as [[Hs Hab]]. subst. lia.
  - assert (Hs : StronglySorted (@score_ge AssetSummary)
                   (firstn limit (sort_desc (scored c q cat (summaries c))))).
    { apply StronglySorted_firstn, sort_desc_sorted_acc. constructor. }
    pose proof (StronglySorted_nth _ _ Hs j i _ _ Hgt' Hj Hi) as Hge.
    unfold score_ge in Hge. simpl in Hge. lia.
Qed.

Lemma search_exact_before_partial_witness :
  String.eqb (lower "crate") (lower (s_asset_id crate_exact)) = true
  /\ String.eqb (lower "crate") (lower (s_asset_id big_box)) = false
  /\ str_in (lower "crate") (lower (s_asset_id big_box)) = true
  /\ rest_score box_catalog big_box "crate" < rest_score box_catalog crate_exact "crate" + 50
  /\ forall i j,
       nth_error (search box_catalog "crate" None 10) i = Some crate_exact ->
       nth_error (search box_catalog "crate" None 10) j = Some big_box -> i < j.
Proof.
  split; [vm_compute; reflexivity|]. split; [vm_compute; reflexivity|].
  split; [vm_compute; reflexivity|]. split; [vm_compute; lia|].
  apply search_exact_before_partial; vm_compute; first [reflexivity | lia].
Defined.

(** C6 as stated fails: the score is a sum, so an asset whose id only
    contains the query but whose name equals it (50 + 80) outranks the asset
    whose id equals the query (100). *)
Lemma search_partial_outranks_exact :
  search crate_catalog "crate" None 10 = [crate_partial; crate_exact]
  /\ String.eqb (lower "crate") (lower (s_asset_id crate_exact)) = true
  /\ String.eqb (lower "crate") (lower (s_asset_id crate_partial)) = false
  /\ str_in (lower "crate") (lower (s_asset_id crate_partial)) = true.
Proof. vm_compute. repeat split. Qed.

(** C9: with the category filter "vehicle" and no local vehicle among the
    candidates, [find_fallback] returns [candidates[0]], the local toy of
    category "prop" that the filter rejected, not the first remote vehicle. *)
Lemma find_fallback_drops_category_filter :
  dict_get "tractor" (by_fallback fallback_catalog)
    = Some ["toy_tractor"; "tractor_remote"]
  /\ find_fallback fallback_catalog "tractor" (Some "vehicle") = Some toy_tractor
  /\ category toy_tractor = "prop"
  /\ category remote_tractor = "vehicle" /\ availability remote_tractor = "remote".
Proof. vm_compute. repeat split. Qed.

(** * Properties of the compiler *)

(** C1: two unnamed objects of the same asset both get the body name
    [crate_0], and the renamed fragment symbols collide with them. *)
Lemma same_asset_objects_share_names :
  match sample_build two_crates_scene with Ok d => all_names d | Err _ => [] end
  = ["grid"; "grid_mat"; "crate_0_wood"; "crate_0_wood"; "default_light";
     "env_ground"; "env_ground_floor"; "crate_0"; "crate_0_box"; "crate_0"; "crate_0_box"]
  /\ exists d, sample_build two_crates_scene = Ok d /\ ~ NoDup (all_names d).
Proof.
  split; [vm_compute; reflexivity|].
  eexists. split; [vm_compute; reflexivity|].
  intros H. vm_compute in H.
  inversion H as [|? ? _ H1]; subst. inversion H1 as [|? ? _ H2]; subst.
  inversion H2 as [|? ? Hn _]; subst. apply Hn. left. reflexivity.
Qed.

(** C7 as stated fails: the lights come first in [worldbody], before the
    environment body (here the synthetic default light). *)
Lemma worldbody_starts_with_light :
  match sample_build two_crates_scene with
  | Ok d => option_map (fun w => map (fun b => (etag b, eget "name" b)) (echildren w))
              (efind "worldbody" d)
  | Err _ => None
  end
  = Some [("light", Some "default_light"); ("body", Some "env_ground");
          ("body", Some "crate_0"); ("body", Some "crate_0")].
Proof. vm_compute. reflexivity. Qed.

(** C8 as stated fails: a fragment that does not parse is compiled as an
    empty body instead of aborting. *)
Lemma unparsable_fragment_compiles :
  sample_fs "assets/broken/model.xml" = Some "<mujoco><worldbody>"
  /\ sample_parse "<mujoco><worldbody>" = PError
  /\ match sample_build broken_scene with
     | Ok d => option_map (fun w => map (fun b => (eget "name" b, List.length (echildren b)))
                                      (echildren w))
                 (efind "worldbody" d)
     | Err _ => None
     end
     = Some [(Some "default_light", 0); (Some "env_ground", 1); (Some "broken_0", 0)].
Proof. vm_compute. repeat split. Qed.

Section CompilerProofs.

Variable RngState : Type.
Variable rng_new : Z -> RngState.
Variable rng_random : RngState -> float * RngState.
Variables math_cos math_sin : float -> float.
Variable math_atan2 : float -> float -> float.
Variable format_vec : list float -> string.
Variable str_float : float -> string.
Variable parse_fragment : string -> Parsed.
Variable tostring_pretty : Element -> string.

Local Abbreviation layout_inst := (layout_instances RngState rng_new rng_random math_cos math_sin).
Local Abbreviation load := (load_asset_content parse_fragment).
Local Abbreviation inst_bodies := (instance_bodies format_vec parse_fragment).
Local Abbreviation obj_bodies :=
  (object_bodies RngState rng_new rng_random math_cos math_sin format_vec parse_fragment).
Local Abbreviation build :=
  (build_mjcf RngState rng_new rng_random math_cos math_sin math_atan2 format_vec
     str_float parse_fragment).

(** The body names the instance loop gives, from index [idx]. *)
Fixpoint inst_names (base : string) (idx : nat) (insts : list InstanceSpec) : list string :=
  match insts with
  | [] => []
  | inst :: rest => body_name_of base idx inst :: inst_names base (S idx) rest
  end.

Definition object_names (seed : Z) (o : ObjectSpec) : list string :=
  inst_names (or_str (o_name o) (o_asset_id o)) 0 (layout_inst o seed).

Definition tag_name (e : Element) : string * option string := (etag e, eget "name" e).

Lemma instance_bodies_names (fs : FileSystem) (path base : string) :
  forall insts idx acc acc',
    inst_bodies fs path base idx insts acc = Ok acc' ->
    exists new, a_bodies acc' = a_bodies acc ++ new
      /\ map tag_name new = map (fun n => ("body", Some n)) (inst_names base idx insts).
Proof.
  induction insts as [|inst rest IH]; intros idx acc acc' H; simpl in H.
  - inversion H; subst. exists []. rewrite app_nil_r. split; reflexivity.
  - destruct (load fs path (body_name_of base idx inst)) as [cont|e]; [|discriminate].
    simpl in H. destruct (IH _ _ _ H) as [new [Hb Hn]].
    simpl in Hb. rewrite <- app_assoc in Hb.
    eexists. split; [exact Hb|].
    simpl. rewrite Hn. reflexivity.
Qed.

Lemma object_bodies_names (fs : FileSystem) (cat : AssetCatalog) (seed : Z) :
  forall objs acc acc',
    obj_bodies fs cat seed objs acc = Ok acc' ->
    exists new, a_bodies acc' = a_bodies acc ++ new
      /\ map tag_name new
         = map (fun n => ("body", Some n)) (flat_map (object_names seed) objs).
Proof.
  induction objs as [|o objs IH]; intros acc acc' H; simpl in H.
  - inversion H; subst. exists []. rewrite app_nil_r. split; reflexivity.
  - destruct (get cat (o_asset_id o)) as [m|e]; [|discriminate]. simpl in H.
    destruct (get_path cat (o_asset_id o)) as [folder|e]; [|discriminate]. simpl in H.
    destruct (inst_bodies fs _ _ 0 _ acc) as [acc1|e] eqn:E1; [|discriminate]. simpl in H.
    destruct (instance_bodies_names fs _ _ _ _ _ _ E1) as [new1 [Hb1 Hn1]].
    destruct (IH _ _ H) as [new2 [Hb2 Hn2]].
    exists (new1 ++ new2). split.
    + rewrite Hb2, Hb1, app_assoc. reflexivity.
    + simpl. rewrite !map_app, Hn1, Hn2. reflexivity.
Qed.

(** C7 (as amended): in a compiled document the [worldbody] holds the light
    elements first (one per LightSpec in order, or the single default
    light), then the environment body, then one body per object instance in
    object order and instance order, then one camera element per CameraSpec
    in order; the [sensor] section follows [worldbody] exactly when the
    aggregated sensor list is non-empty. *)
Theorem worldbody_order (fs : FileSystem) (sc : SceneSpec) (cat : AssetCatalog)
  (seed : Z) (doc : Element) (Hok : build fs sc cat seed = Ok doc) :
  exists asset env_body bodies sensors,
    echildren doc
    = header format_vec str_float sc
      ++ [asset;
          Elem "worldbody" []
            (light_elems format_vec sc ++ env_body :: bodies
             ++ map (camera_elem math_atan2 format_vec str_float) (cameras sc))]
      ++ match sensors with [] => [] | _ :: _ => [Elem "sensor" [] sensors] end
    /\ etag asset = "asset"
    /\ tag_name env_body = ("body", Some ("env_" ++ env_asset_id (environment sc))%string)
    /\ map tag_name bodies
       = map (fun n => ("body", Some n)) (flat_map (object_names seed) (objects sc)).
Proof.
  unfold build_mjcf in Hok.
  destruct (get cat _) as [m|e]; [|discriminate]. simpl in Hok.
  destruct (get_path cat _) as [folder|e]; [|discriminate]. simpl in Hok.
  destruct (load fs _ _) as [env_c|e]; [|discriminate]. simpl in Hok.
  destruct (obj_bodies fs cat seed (objects sc) _) as [acc|e] eqn:E; [|discriminate].
  simpl in Hok. inversion Hok; subst. clear Hok.
  destruct (object_bodies_names fs cat seed _ _ _ E) as [new [Hb Hn]].
  simpl in Hb.
  exists (Elem "asset" [] (default_texture :: default_material :: a_assets acc)),
    (Elem "body" [("name", ("env_" ++ env_asset_id (environment sc))%string); ("pos", "0 0 0")]
       (c_worldbody env_c)),
    (a_bodies acc), (a_sensors acc).
  split; [|split; [reflexivity|split]].
  - simpl. f_equal. f_equal.
    destruct (a_sensors acc); reflexivity.
  - unfold tag_name, eget. simpl. reflexivity.
  - rewrite Hb. exact Hn.
Qed.

Lemma load_ok_file (fs : FileSystem) (path prefix : string) (c : Content) :
  load fs path prefix = Ok c -> fs path <> None.
Proof. unfold load_asset_content. destruct (fs path); [discriminate | discriminate]. Qed.

Lemma instance_bodies_file (fs : FileSystem) (path base : string) :
  forall insts idx acc acc',
    inst_bodies fs path base idx insts acc = Ok acc' -> insts <> [] -> fs path <> None.
Proof.
  intros [|inst rest] idx acc acc' H Hne; [contradiction|]. simpl in H.
  destruct (load fs path (body_name_of base idx inst)) as [c|e] eqn:E; [|discriminate].
  exact (load_ok_file _ _ _ _ E).
Qed.

Lemma object_bodies_files (fs : FileSystem) (cat : AssetCatalog) (seed : Z) :
  forall objs acc acc',
    obj_bodies fs cat seed objs acc = Ok acc' ->
    forall o m folder, In o objs ->
      get cat (o_asset_id o) = Ok m -> get_path cat (o_asset_id o) = Ok folder ->
      layout_inst o seed <> [] -> fs (mjcf_path_of folder (mjcf_include m)) <> None.
Proof.
  induction objs as [|o' objs IH]; intros acc acc' H o m folder Hin Hm Hp Hne;
    [destruct Hin|].
  simpl in H.
  destruct (get cat (o_asset_id o')) as [m'|e] eqn:Em; [|discriminate]. simpl in H.
  destruct (get_path cat (o_asset_id o')) as [folder'|e] eqn:Ep; [|discriminate]. simpl in H.
  destruct (inst_bodies fs _ _ 0 _ acc) as [acc1|e] eqn:E1; [|discriminate]. simpl in H.
  destruct Hin as [<-|Hin].
  - rewrite Hm in Em. rewrite Hp in Ep. inversion Em. inversion Ep. subst.
    exact (instance_bodies_file _ _ _ _ _ _ _ E1 Hne).
  - exact (IH _ _ H o m folder Hin Hm Hp Hne).
Qed.

(** C8 (as amended): a compile that succeeds has found every fragment file
    it requested (the environment's, and each object's with at least one
    instance), so a missing fragment file is fatal; a fragment whose text is
    empty or does not parse is not an error and contributes no content. *)
Theorem compile_requires_fragment_files (fs : FileSystem) (sc : SceneSpec)
  (cat : AssetCatalog) (seed : Z) (doc : Element) (Hok : build fs sc cat seed = Ok doc) :
  (forall m folder,
     get cat (env_asset_id (environment sc)) = Ok m ->
     get_path cat (env_asset_id (environment sc)) = Ok folder ->
     fs (mjcf_path_of folder (mjcf_include m)) <> None)
  /\ (forall o m folder, In o (objects sc) ->
        get cat (o_asset_id o) = Ok m -> get_path cat (o_asset_id o) = Ok folder ->
        layout_inst o seed <> [] -> fs (mjcf_path_of folder (mjcf_include m)) <> None)
  /\ (forall path prefix text, fs path = Some text ->
        parse_fragment text = PEmpty \/ parse_fragment text = PError ->
        load fs path prefix = Ok empty_content).
Proof.
  unfold build_mjcf in Hok.
  destruct (get cat _) as [m0|e] eqn:Em; [|discriminate]. simpl in Hok.
  destruct (get_path cat _) as [folder0|e] eqn:Ep; [|discriminate]. simpl in Hok.
  destruct (load fs _ _) as [env_c|e] eqn:El; [|discriminate]. simpl in Hok.
  destruct (obj_bodies fs cat seed (objects sc) _) as [acc|e] eqn:E; [|discriminate].
  split; [|split].
  - intros m folder Hm Hp.
    injection Hm as Hm. injection Hp as Hp. subst m folder.
    exact (load_ok_file _ _ _ _ El).
  - exact (object_bodies_files fs cat seed _ _ _ E).
  - intros path prefix text Hf Hp. unfold load_asset_content. rewrite Hf.
    destruct Hp as [Hp|Hp]; rewrite Hp; reflexivity.
Qed.

Lemma load_ext (fs1 fs2 : FileSystem) (Hfs : forall p, fs1 p = fs2 p) (path prefix : string) :
  load fs1 path prefix = load fs2 path prefix.
Proof. unfold load_asset_content. rewrite Hfs. reflexivity. Qed.

Lemma instance_bodies_ext (fs1 fs2 : FileSystem) (Hfs : forall p, fs1 p = fs2 p)
  (path base : string) :
  forall insts idx acc,
    inst_bodies fs1 path base idx insts acc = inst_bodies fs2 path base idx insts acc.
Proof.
  induction insts as [|inst rest IH]; intros idx acc; simpl; [reflexivity|].
  rewrite (load_ext fs1 fs2 Hfs).
  destruct (load fs2 path _); simpl; [apply IH | reflexivity].
Qed.

Lemma object_bodies_ext (fs1 fs2 : FileSystem) (Hfs : forall p, fs1 p = fs2 p)
  (cat : AssetCatalog) (seed : Z) :
  forall objs acc, obj_bodies fs1 cat seed objs acc = obj_bodies fs2 cat seed objs acc.
Proof.
  induction objs as [|o objs IH]; intros acc; simpl; [reflexivity|].
  destruct (get cat (o_asset_id o)); simpl; [|reflexivity].
  destruct (get_path cat (o_asset_id o)); simpl; [|reflexivity].
  rewrite (instance_bodies_ext fs1 fs2 Hfs).
  destruct (inst_bodies fs2 _ _ 0 _ acc); simpl; [apply IH | reflexivity].
Qed.

(** C2: [scene_to_mjcf] is a function of its arguments and of the contents
    of the fragment files: each layout seeds its own generator from [seed]
    and nothing else is read, so two calls with the same arguments over the
    same file contents give the same string. *)
Theorem scene_to_mjcf_deterministic (fs1 fs2 : FileSystem)
  (Hfs : forall p, fs1 p = fs2 p) (sc : SceneSpec) (cat : AssetCatalog) (seed : Z) :
  scene_to_mjcf RngState rng_new rng_random math_cos math_sin math_atan2 format_vec
    str_float parse_fragment tostring_pretty fs1 sc cat seed
  = scene_to_mjcf RngState rng_new rng_random math_cos math_sin math_atan2 format_vec
      str_float parse_fragment tostring_pretty fs2 sc cat seed.
Proof.
  unfold scene_to_mjcf, build_mjcf.
  destruct (get cat _); simpl; [|reflexivity].
  destruct (get_path cat _); simpl; [|reflexivity].
  rewrite (load_ext fs1 fs2 Hfs).
  destruct (load fs2 _ _); simpl; [|reflexivity].
  rewrite (object_bodies_ext fs1 fs2 Hfs).
  reflexivity.
Qed.

End CompilerProofs.

Lemma worldbody_order_witness :
  sample_build two_crates_scene = Ok two_crates_doc
  /\ exists asset env_body bodies sensors,
       echildren two_crates_doc
       = header sample_format_vec sample_str_float two_crates_scene
         ++ [asset;
             Elem "worldbody" []
               (light_elems sample_format_vec two_crates_scene ++ env_body :: bodies
                ++ map (camera_elem sample_atan2 sample_format_vec sample_str_float)
                     (cameras two_crates_scene))]
         ++ match sensors with [] => [] | _ :: _ => [Elem "sensor" [] sensors] end
       /\ etag asset = "asset"
       /\ tag_name env_body
          = ("body", Some ("env_" ++ env_asset_id (environment two_crates_scene))%string)
       /\ map tag_name bodies
          = map (fun n => ("body", Some n))
              (flat_map (object_names nat lcg_new lcg_random id_float id_float 42)
                 (objects two_crates_scene)).
Proof.
  split; [vm_compute; reflexivity|].
  apply (worldbody_order nat lcg_new lcg_random id_float id_float sample_atan2
           sample_format_vec sample_str_float sample_parse sample_fs two_crates_scene
           sample_catalog 42 two_crates_doc).
  vm_compute. reflexivity.
Defined.

Lemma compile_requires_fragment_files_witness :
  sample_build broken_scene = Ok broken_doc
  /\ (forall m folder,
        get sample_catalog (env_asset_id (environment broken_scene)) = Ok m ->
        get_path sample_catalog (env_asset_id (environment broken_scene)) = Ok folder ->
        sample_fs (mjcf_path_of folder (mjcf_include m)) <> None)
  /\ (forall o m folder, In o (objects broken_scene) ->
        get sample_catalog (o_asset_id o) = Ok m ->
        get_path sample_catalog (o_asset_id o) = Ok folder ->
        layout_instances nat lcg_new lcg_random id_float id_float o 42 <> [] ->
        sample_fs (mjcf_path_of folder (mjcf_include m)) <> None)
  /\ (forall path prefix text, sample_fs path = Some text ->
        sample_parse text = PEmpty \/ sample_parse text = PError ->
        load_asset_content sample_parse sample_fs path prefix = Ok empty_content).
Proof.
  split; [vm_compute; reflexivity|].
  apply (compile_requires_fragment_files nat lcg_new lcg_random id_float id_float
           sample_atan2 sample_format_vec sample_str_float sample_parse sample_fs
           broken_scene sample_catalog 42 broken_doc).
  vm_compute. reflexivity.
Defined.

Lemma scene_to_mjcf_deterministic_witness :
  (forall p, sample_fs p = (fun p => sample_fs p) p)
  /\ scene_to_mjcf nat lcg_new lcg_random id_float id_float sample_atan2 sample_format_vec
       sample_str_float sample_parse sample_tostring sample_fs two_crates_scene sample_catalog 42
     = scene_to_mjcf nat lcg_new lcg_random id_float id_float sample_atan2 sample_format_vec
         sample_str_float sample_parse sample_tostring (fun p => sample_fs p)
         two_crates_scene sample_catalog 42.
Proof.
  split; [intros p; reflexivity|].
  apply (scene_to_mjcf_deterministic nat lcg_new lcg_random id_float id_float sample_atan2
           sample_format_vec sample_str_float sample_parse sample_tostring).
  intros p. reflexivity.
Defined.


(** ** Dictionary lemmas *)

Lemma dict_get_set {V} (k k' : string) (v : V) (d : Dict V) :
  dict_get k (dict_set k' v d) = if String.eqb k k' then Some v else dict_get k d.
Proof.
  induction d as [|[k0 v0] d IH]; simpl; [reflexivity|].
  destruct (String.eqb_spec k' k0) as [->|Hne]; simpl.
  - destruct (String.eqb k k0); reflexivity.
  - rewrite IH. destruct (String.eqb_spec k k0) as [->|Hne']; [|reflexivity].
    destruct (String.eqb_spec k0 k') as [->|]; [contradiction|reflexivity].
Qed.

Lemma dict_mem_keys {V} (k : string) (d : Dict V) :
  dict_mem k d = existsb (String.eqb k) (dict_keys d).
Proof.
  unfold dict_mem, dict_keys.
  induction d as [|[k0 v0] d IH]; simpl; [reflexivity|].
  destruct (String.eqb k k0); [reflexivity | exact IH].
Qed.

Lemma dict_keys_set {V} (k : string) (v : V) (d : Dict V) :
  dict_keys (dict_set k v d)
  = if existsb (String.eqb k) (dict_keys d) then dict_keys d else dict_keys d ++ [k].
Proof.
  unfold dict_keys.
  induction d as [|[k0 v0] d IH]; simpl; [reflexivity|].
  destruct (String.eqb k k0); simpl; [reflexivity|].
  rewrite IH. destruct (existsb _ _); reflexivity.
Qed.

Definition opt_list {V} (o : option (list V)) : list V :=
  match o with Some l => l | None => [] end.

(** [o] extended by [ys]: what [dict_push] does to one key's entry. *)
Definition ext {V} (o : option (list V)) (ys : list V) : option (list V) :=
  match ys with [] => o | _ :: _ => Some (opt_list o ++ ys) end.

Lemma ext_app {V} (o : option (list V)) (ys zs : list V) :
  ext (ext o ys) zs = ext o (ys ++ zs).
Proof.
  destruct zs as [|z zs]; [rewrite app_nil_r; reflexivity|].
  destruct ys as [|y ys]; simpl; [reflexivity|].
  rewrite <- app_assoc. reflexivity.
Qed.

Lemma dict_get_push {V} (k k' : string) (x : V) (d : Dict (list V)) :
  dict_get k (dict_push k' x d)
  = if String.eqb k k' then ext (dict_get k d) [x] else dict_get k d.
Proof.
  unfold dict_push.
  destruct (String.eqb_spec k k') as [->|Hne].
  - destruct (dict_get k' d) eqn:E; rewrite dict_get_set, String.eqb_refl; reflexivity.
  - destruct (dict_get k' d); rewrite dict_get_set;
      destruct (String.eqb_spec k k'); try contradiction; reflexivity.
Qed.

Lemma dict_keys_push {V} (k : string) (x : V) (d : Dict (list V)) :
  dict_keys (dict_push k x d)
  = if existsb (String.eqb k) (dict_keys d) then dict_keys d else dict_keys d ++ [k].
Proof. unfold dict_push. destruct (dict_get k d); apply dict_keys_set. Qed.

Lemma dict_get_push_fold {A V} (key : A -> string) (val : A -> V) (k : string) :
  forall (xs : list A) (d : Dict (list V)),
    dict_get k (fold_left (fun d x => dict_push (key x) (val x) d) xs d)
    = ext (dict_get k d) (map val (filter (fun x => String.eqb (key x) k) xs)).
Proof.
  induction xs as [|x xs IH]; intros d; simpl; [reflexivity|].
  rewrite IH, dict_get_push. cbn [filter].
  rewrite (String.eqb_sym (key x) k).
  destruct (String.eqb k (key x)); [|reflexivity].
  cbn [map]. change (val x :: ?l) with ([val x] ++ l). apply ext_app.
Qed.

(** Each key once, in order of first occurrence. *)
Definition uniq (l : list string) : list string :=
  fold_left (fun acc x => if existsb (String.eqb x) acc then acc else acc ++ [x]) l [].

Lemma dict_keys_push_fold {A V} (key : A -> string) (val : A -> V) :
  forall (xs : list A) (d : Dict (list V)),
    dict_keys (fold_left (fun d x => dict_push (key x) (val x) d) xs d)
    = fold_left (fun acc x => if existsb (String.eqb x) acc then acc else acc ++ [x])
        (map key xs) (dict_keys d).
Proof.
  induction xs as [|x xs IH]; intros d; simpl; [reflexivity|].
  rewrite IH, dict_keys_push. reflexivity.
Qed.

Lemma uniq_step_nodup (l acc : list string) :
  NoDup acc ->
  NoDup (fold_left (fun acc x => if existsb (String.eqb x) acc then acc else acc ++ [x]) l acc).
Proof.
  revert acc. induction l as [|x l IH]; intros acc Hnd; simpl; [exact Hnd|].
  apply IH. destruct (existsb (String.eqb x) acc) eqn:E; [exact Hnd|].
  apply NoDup_app; [exact Hnd | constructor; [intros []|constructor] |].
  intros y Hy [Hxy|[]]. subst y.
  assert (existsb (String.eqb x) acc = true)
    by (apply existsb_exists; exists x; split; [exact Hy | apply String.eqb_refl]).
  congruence.
Qed.

Lemma uniq_nodup (l : list string) : NoDup (uniq l).
Proof. apply uniq_step_nodup. constructor. Qed.

Lemma uniq_step_in (l acc : list string) (y : string) :
  In y (fold_left (fun acc x => if existsb (String.eqb x) acc then acc else acc ++ [x]) l acc)
  <-> In y l \/ In y acc.
Proof.
  revert acc. induction l as [|x l IH]; intros acc; simpl; [tauto|].
  rewrite IH. destruct (existsb (String.eqb x) acc) eqn:E.
  - apply existsb_exists in E as [z [Hz Hxz]]. apply String.eqb_eq in Hxz. subst z.
    split; [tauto|]. intros [[<-|H]|H]; auto.
  - rewrite in_app_iff. simpl. split; [tauto|]. intros [[<-|H]|H]; auto.
Qed.

Lemma uniq_in (l : list string) (y : string) : In y (uniq l) <-> In y l.
Proof. unfold uniq. rewrite uniq_step_in. simpl. tauto. Qed.


(** ** What [_scan] builds *)

(** The manifests that loaded, with their folders, in glob order. *)
Definition loaded (found : list (string * option AssetManifest)) : list (string * AssetManifest) :=
  flat_map (fun fm => match snd fm with Some m => [(fst fm, m)] | None => [] end) found.

Definition scan_loaded (l : list (string * AssetManifest)) : AssetCatalog :=
  fold_left (fun c fm => scan_one c (fst fm) (snd fm)) l empty_catalog.

Lemma scan_fold_loaded (found : list (string * option AssetManifest)) (c : AssetCatalog) :
  fold_left (fun c fm => match snd fm with Some m => scan_one c (fst fm) m | None => c end)
    found c
  = fold_left (fun c fm => scan_one c (fst fm) (snd fm)) (loaded found) c.
Proof.
  revert c. induction found as [|[f [m|]] found IH]; intros c; simpl; [reflexivity|apply IH|apply IH].
Qed.

Lemma scan_eq (found : list (string * option AssetManifest)) :
  scan found = scan_loaded (loaded found).
Proof. apply scan_fold_loaded. Qed.

Lemma scan_loaded_snoc (l : list (string * AssetManifest)) (fm : string * AssetManifest) :
  scan_loaded (l ++ [fm]) = scan_one (scan_loaded l) (fst fm) (snd fm).
Proof. unfold scan_loaded. rewrite fold_left_app. reflexivity. Qed.

(** The summary [_scan] records for a manifest loaded from [folder]. *)
Definition summary_of (folder : string) (m : AssetManifest) : AssetSummary :=
  mkSummary (asset_id m) (m_name m) (category m) (tags m) (availability m) folder.

(** The last loaded manifest with id [aid], with its folder. *)
Definition last_loaded (aid : string) (l : list (string * AssetManifest))
  : option (string * AssetManifest) :=
  fold_left (fun acc fm => if String.eqb aid (asset_id (snd fm)) then Some fm else acc) l None.

(** The ids the index of concept [k] lists: one per declaration, in load order. *)
Definition declared_ids (decl : AssetManifest -> list string) (k : string)
  (l : list (string * AssetManifest)) : list string :=
  flat_map (fun fm => map (fun _ => asset_id (snd fm))
                        (filter (fun t => String.eqb (lower t) k) (decl (snd fm)))) l.

Lemma scan_summaries (l : list (string * AssetManifest)) :
  summaries (scan_loaded l) = map (fun fm => summary_of (fst fm) (snd fm)) l.
Proof.
  induction l as [|fm l IH] using rev_ind; [reflexivity|].
  rewrite scan_loaded_snoc, map_app. simpl. rewrite IH. reflexivity.
Qed.

Lemma scan_by_id (l : list (string * AssetManifest)) (aid : string) :
  dict_get aid (by_id (scan_loaded l)) = option_map snd (last_loaded aid l)
  /\ dict_get aid (paths (scan_loaded l)) = option_map fst (last_loaded aid l).
Proof.
  induction l as [|fm l IH] using rev_ind; [split; reflexivity|].
  rewrite scan_loaded_snoc. unfold last_loaded. rewrite fold_left_app.
  fold (last_loaded aid l). simpl. rewrite !dict_get_set.
  destruct (String.eqb aid (asset_id (snd fm))); [split; reflexivity | exact IH].
Qed.

Lemma scan_keys (l : list (string * AssetManifest)) :
  dict_keys (by_id (scan_loaded l)) = uniq (map (fun fm => asset_id (snd fm)) l)
  /\ dict_keys (paths (scan_loaded l)) = uniq (map (fun fm => asset_id (snd fm)) l)
  /\ dict_keys (by_category (scan_loaded l)) = uniq (map (fun fm => category (snd fm)) l).
Proof.
  unfold uniq.
  induction l as [|fm l IH] using rev_ind; [repeat split|].
  rewrite scan_loaded_snoc, !map_app, !fold_left_app. simpl.
  destruct IH as [H1 [H2 H3]].
  rewrite !dict_keys_set, dict_keys_push, H1, H2, H3. repeat split.
Qed.

Lemma scan_category (l : list (string * AssetManifest)) (k : string) :
  dict_get k (by_category (scan_loaded l))
  = ext None (map (fun fm => asset_id (snd fm))
                (filter (fun fm => String.eqb (category (snd fm)) k) l)).
Proof.
  induction l as [|fm l IH] using rev_ind; [reflexivity|].
  rewrite scan_loaded_snoc, filter_app, map_app, <- ext_app, <- IH. simpl.
  rewrite dict_get_push, (String.eqb_sym (category (snd fm)) k).
  destruct (String.eqb k (category (snd fm))); reflexivity.
Qed.

Lemma scan_index (decl : AssetManifest -> list string)
  (field : AssetCatalog -> Dict (list string)) (Hempty : field empty_catalog = [])
  (Hfield : forall c folder m,
      field (scan_one c folder m)
      = fold_left (fun d t => dict_push (lower t) (asset_id m) d) (decl m) (field c))
  (l : list (string * AssetManifest)) (k : string) :
  dict_get k (field (scan_loaded l)) = ext None (declared_ids decl k l).
Proof.
  induction l as [|fm l IH] using rev_ind; [unfold scan_loaded; simpl; rewrite Hempty; reflexivity|].
  rewrite scan_loaded_snoc, Hfield, dict_get_push_fold, IH.
    unfold declared_ids. rewrite flat_map_app, <- ext_app. simpl. rewrite app_nil_r.
  reflexivity.
Qed.

Lemma scan_fallback (l : list (string * AssetManifest)) (k : string) :
  dict_get k (by_fallback (scan_loaded l)) = ext None (declared_ids fallback_for k l).
Proof. apply scan_index; reflexivity. Qed.

Lemma scan_tag (l : list (string * AssetManifest)) (k : string) :
  dict_get k (by_tag (scan_loaded l)) = ext None (declared_ids tags k l).
Proof. apply scan_index; reflexivity. Qed.



Lemma ext_none_some (ys ids : list string) : ext None ys = Some ids -> ids = ys /\ ys <> [].
Proof. destruct ys as [|y ys]; simpl; [discriminate|]. intros H. inversion H. split; [reflexivity|discriminate]. Qed.

Lemma dict_mem_scan (l : list (string * AssetManifest)) (aid : string) :
  dict_mem aid (by_id (scan_loaded l)) = true <-> In aid (map (fun fm => asset_id (snd fm)) l).
Proof.
  rewrite dict_mem_keys, (proj1 (scan_keys l)), existsb_exists, <- uniq_in.
  split; [intros [x [Hx Hax]]; apply String.eqb_eq in Hax; subst; exact Hx|].
  intros H. exists aid. split; [exact H | apply String.eqb_refl].
Qed.

Lemma declared_ids_in (decl : AssetManifest -> list string) (k a : string)
  (l : list (string * AssetManifest)) :
  In a (declared_ids decl k l) -> In a (map (fun fm => asset_id (snd fm)) l).
Proof.
  unfold declared_ids. rewrite in_flat_map. intros [fm [Hfm Ha]].
  apply in_map_iff in Ha as [t [<- _]]. exact (in_map (fun fm => asset_id (snd fm)) _ _ Hfm).
Qed.

Lemma scan_summaries_indexed (found : list (string * option AssetManifest)) :
  forall s, In s (summaries (scan found)) -> dict_mem (s_asset_id s) (by_id (scan found)) = true.
Proof.
  rewrite scan_eq. intros s Hs. rewrite scan_summaries in Hs.
  apply in_map_iff in Hs as [fm [<- Hfm]].
  apply dict_mem_scan. exact (in_map (fun fm => asset_id (snd fm)) _ _ Hfm).
Qed.

(** The indices [_scan] builds agree: an id is in [_by_id] exactly when it is in [_paths], every summary's id is in [_by_id], and every category, tag or fallback list is non-empty and holds only ids of [_by_id]. *)
Theorem scan_indices_consistent (found : list (string * option AssetManifest)) :
  let c := scan found in
  (forall aid, dict_mem aid (by_id c) = dict_mem aid (paths c))
  /\ (forall s, In s (summaries c) -> dict_mem (s_asset_id s) (by_id c) = true)
  /\ (forall k ids,
        dict_get k (by_category c) = Some ids \/ dict_get k (by_tag c) = Some ids
        \/ dict_get k (by_fallback c) = Some ids ->
        ids <> [] /\ forall a, In a ids -> dict_mem a (by_id c) = true).
Proof.
  intros c. subst c. rewrite scan_eq. set (l := loaded found).
  split; [|split].
  - intros aid. rewrite !dict_mem_keys. destruct (scan_keys l) as [-> [-> _]]. reflexivity.
  - intros s Hs. pose proof (scan_summaries_indexed found s) as H.
    rewrite scan_eq in H. exact (H Hs).
  - intros k ids H.
    rewrite scan_category, scan_tag, scan_fallback in H.
    destruct H as [H|[H|H]]; apply ext_none_some in H as [-> Hne]; split; try exact Hne;
      intros a Ha; apply dict_mem_scan.
    + apply in_map_iff in Ha as [fm [<- Hfm]]. apply filter_In in Hfm as [Hfm _].
      exact (in_map (fun fm => asset_id (snd fm)) _ _ Hfm).
    + exact (declared_ids_in _ _ _ _ Ha).
    + exact (declared_ids_in _ _ _ _ Ha).
Qed.

Lemma last_loaded_snoc (aid : string) (l : list (string * AssetManifest)) fm :
  last_loaded aid (l ++ [fm])
  = if String.eqb aid (asset_id (snd fm)) then Some fm else last_loaded aid l.
Proof. unfold last_loaded. rewrite fold_left_app. reflexivity. Qed.

Lemma last_loaded_spec (aid : string) (l : list (string * AssetManifest)) fm :
  last_loaded aid l = Some fm
  <-> exists pre post, l = pre ++ fm :: post /\ asset_id (snd fm) = aid
                       /\ Forall (fun fm' => asset_id (snd fm') <> aid) post.
Proof.
  induction l as [|x l IH] using rev_ind.
  - split; [discriminate|]. intros [pre [post [H _]]]. destruct pre; discriminate.
  - rewrite last_loaded_snoc. destruct (String.eqb_spec aid (asset_id (snd x))) as [Hx|Hx].
    + split.
      * intros H. inversion H; subst. exists l, []. split; [reflexivity|split; [reflexivity|constructor]].
      * intros [pre [post [Heq [Hid Hpost]]]].
        destruct post as [|y post _] using rev_ind.
        -- apply app_inj_tail in Heq as [_ ->]. reflexivity.
        -- rewrite app_comm_cons, app_assoc in Heq. apply app_inj_tail in Heq as [_ ->].
           apply Forall_app in Hpost as [_ Hy]. inversion Hy. congruence.
    + rewrite IH. split.
      * intros [pre [post [-> [Hid Hpost]]]]. exists pre, (post ++ [x]).
        split; [rewrite <- app_assoc; reflexivity|]. split; [exact Hid|].
        apply Forall_app. split; [exact Hpost|]. constructor; [congruence|constructor].
      * intros [pre [post [Heq [Hid Hpost]]]].
        destruct post as [|y post _] using rev_ind.
        -- apply app_inj_tail in Heq as [_ ->]. congruence.
        -- rewrite app_comm_cons, app_assoc in Heq. apply app_inj_tail in Heq as [-> ->].
           apply Forall_app in Hpost as [Hpost _]. exists pre, post. auto.
Qed.

Lemma last_loaded_none (aid : string) (l : list (string * AssetManifest)) :
  last_loaded aid l = None <-> Forall (fun fm => asset_id (snd fm) <> aid) l.
Proof.
  induction l as [|x l IH] using rev_ind; [split; [constructor|reflexivity]|].
  rewrite last_loaded_snoc, Forall_app, <- IH.
  destruct (String.eqb_spec aid (asset_id (snd x))) as [Hx|Hx].
  - split; [discriminate|]. intros [_ H]. inversion H. congruence.
  - split; [intros H; split; [exact H | constructor; [congruence|constructor]] | tauto].
Qed.

(** When two manifests declare the same id, [get] returns the last one loaded and [get_path] its folder; an id no manifest declares makes both raise [AssetNotFoundError] with the similar ids. *)
Theorem scan_get_last (found : list (string * option AssetManifest)) (aid : string) :
  (forall m,
     get (scan found) aid = Ok m
     <-> exists folder pre post,
           loaded found = pre ++ (folder, m) :: post /\ asset_id m = aid
           /\ Forall (fun fm => asset_id (snd fm) <> aid) post
           /\ get_path (scan found) aid = Ok folder)
  /\ (Forall (fun fm => asset_id (snd fm) <> aid) (loaded found) ->
      get (scan found) aid = Err (AssetNotFoundError aid (find_similar (scan found) aid 3))
      /\ get_path (scan found) aid
         = Err (AssetNotFoundError aid (find_similar (scan found) aid 3))).
Proof.
  unfold get, get_path. rewrite scan_eq. set (l := loaded found).
  destruct (scan_by_id l aid) as [Hid Hp]. rewrite Hid, Hp.
  split.
  - intros m. destruct (last_loaded aid l) as [[f m']|] eqn:E; simpl.
    + apply last_loaded_spec in E as [pre [post [Hl [Ha Hpost]]]]. split.
      * intros H. inversion H; subst. exists f, pre, post. auto.
      * intros [f' [pre' [post' [Hl' [Ha' [Hpost' Hf]]]]]].
        inversion Hf; subst f'.
        assert (E' : last_loaded aid l = Some (f, m))
          by (apply last_loaded_spec; exists pre', post'; simpl; auto).
        assert (E0 : last_loaded aid l = Some (f, m'))
          by (apply last_loaded_spec; exists pre, post; auto).
        rewrite E0 in E'. inversion E'. reflexivity.
    + split; [discriminate|]. intros [f [pre [post [_ [_ [_ Hf]]]]]]. discriminate.
  - intros Hn. apply last_loaded_none in Hn. rewrite Hn. split; reflexivity.
Qed.


(** [len(catalog)] counts the distinct ids loaded, [categories()] lists the distinct categories in first-seen order, [list_all()] returns one summary per loaded manifest in scan order, and [asset_id in catalog] holds exactly for the loaded ids. *)
Theorem scan_len_categories (found : list (string * option AssetManifest)) :
  catalog_len (scan found) = List.length (uniq (map (fun fm => asset_id (snd fm)) (loaded found)))
  /\ NoDup (categories (scan found))
  /\ categories (scan found) = uniq (map (fun fm => category (snd fm)) (loaded found))
  /\ list_all (scan found) None = map (fun fm => summary_of (fst fm) (snd fm)) (loaded found)
  /\ (forall aid, contains (scan found) aid = true
                  <-> In aid (map (fun fm => asset_id (snd fm)) (loaded found))).
Proof.
  rewrite scan_eq. set (l := loaded found).
  destruct (scan_keys l) as [H1 [_ H3]].
  split; [|split; [|split; [|split]]].
  - unfold catalog_len. rewrite <- H1. unfold dict_keys. rewrite length_map. reflexivity.
  - unfold categories. rewrite H3. apply uniq_nodup.
  - exact H3.
  - apply scan_summaries.
  - intros aid. apply dict_mem_scan.
Qed.

(** ** [find_fallback] on a scanned catalog *)

Definition declares (k : string) (m : AssetManifest) : bool :=
  existsb (fun t => String.eqb (lower t) k) (fallback_for m).

Definition passes (cat : option string) (m : AssetManifest) : bool :=
  negb (truthy_str cat && negb (String.eqb (category m) (or_str cat ""))).

Lemma nodup_last_loaded (l : list (string * AssetManifest)) fm :
  NoDup (map (fun fm => asset_id (snd fm)) l) -> In fm l ->
  last_loaded (asset_id (snd fm)) l = Some fm.
Proof.
  intros Hnd Hin. apply last_loaded_spec.
  apply in_split in Hin as [pre [post ->]].
  exists pre, post. split; [reflexivity|]. split; [reflexivity|].
  rewrite map_app in Hnd. simpl in Hnd. apply NoDup_remove_2 in Hnd.
  apply Forall_forall. intros fm' Hfm' Heq. apply Hnd. apply in_or_app. right.
  rewrite <- Heq. exact (in_map (fun fm => asset_id (snd fm)) _ _ Hfm').
Qed.

(** The manifests behind the fallback index of [k], one per declaration. *)
Definition declared_manifests (k : string) (l : list (string * AssetManifest))
  : list AssetManifest :=
  flat_map (fun fm => map (fun _ => snd fm)
                        (filter (fun t => String.eqb (lower t) k) (fallback_for (snd fm)))) l.

Lemma declared_lookup (D : Dict AssetManifest) (k : string) :
  forall l : list (string * AssetManifest),
    (forall fm, In fm l -> dict_get (asset_id (snd fm)) D = Some (snd fm)) ->
    map (fun a => dict_get a D) (declared_ids fallback_for k l)
    = map Some (declared_manifests k l).
Proof.
  unfold declared_ids, declared_manifests.
  induction l as [|fm l IH]; intros Hall; [reflexivity|].
  simpl. rewrite !map_app, IH by (intros; apply Hall; right; assumption).
  f_equal. rewrite !map_map. apply map_ext. intros _. apply Hall. left. reflexivity.
Qed.

Lemma first_local_find (c : AssetCatalog) (cat : option string) :
  forall ids ms, map (fun a => dict_get a (by_id c)) ids = map Some ms ->
    first_local c cat ids
    = find (fun m => passes cat m && String.eqb (availability m) "local") ms.
Proof.
  induction ids as [|a ids IH]; intros [|m ms] H; simpl in H; try discriminate; [reflexivity|].
  inversion H as [[Ha Hrest]]. simpl. rewrite Ha. unfold passes.
  destruct (truthy_str cat && negb (String.eqb (category m) (or_str cat ""))); simpl;
    [apply IH; exact Hrest|].
  destruct (String.eqb (availability m) "local"); [reflexivity|apply IH; exact Hrest].
Qed.

Lemma find_app {A} (P : A -> bool) (xs ys : list A) :
  find P (xs ++ ys) = match find P xs with Some x => Some x | None => find P ys end.
Proof. induction xs as [|x xs IH]; simpl; [reflexivity|]. destruct (P x); [reflexivity|exact IH]. Qed.

Lemma declares_filter (k : string) (m : AssetManifest) :
  declares k m = match filter (fun t => String.eqb (lower t) k) (fallback_for m) with
                 | [] => false | _ :: _ => true end.
Proof.
  unfold declares. induction (fallback_for m) as [|t ts IH]; simpl; [reflexivity|].
  destruct (String.eqb (lower t) k); [reflexivity|exact IH].
Qed.

Lemma find_declared (P : AssetManifest -> bool) (k : string) (l : list (string * AssetManifest)) :
  find P (declared_manifests k l) = find P (filter (declares k) (map snd l))
  /\ hd_error (declared_manifests k l) = hd_error (filter (declares k) (map snd l)).
Proof.
  unfold declared_manifests.
  induction l as [|fm l [IH1 IH2]]; [split; reflexivity|].
  simpl. rewrite find_app, declares_filter.
  destruct (filter (fun t => String.eqb (lower t) k) (fallback_for (snd fm))) as [|t ts];
    simpl; [split; assumption|].
  split; [|reflexivity].
  destruct (P (snd fm)) eqn:HP; [reflexivity|].
  rewrite <- IH1. replace (find P (map (fun _ => snd fm) ts)) with (@None AssetManifest);
    [reflexivity|].
  clear -HP. induction ts as [|t' ts IH]; simpl; [reflexivity|]. rewrite HP. exact IH.
Qed.

(** On a scanned catalog whose ids are distinct, [find_fallback] returns the first manifest declaring the concept in [fallback_for] that passes the category filter and is local, and otherwise the first manifest declaring the concept, whatever its category. *)
Theorem find_fallback_scan (found : list (string * option AssetManifest)) (concept : string)
  (cat : option string)
  (Hnd : NoDup (map (fun fm => asset_id (snd fm)) (loaded found))) :
  let cands := filter (declares (lower concept)) (map snd (loaded found)) in
  find_fallback (scan found) concept cat
  = match find (fun m => passes cat m && String.eqb (availability m) "local") cands with
    | Some m => Some m
    | None => hd_error cands
    end.
Proof.
  intros cands. subst cands. unfold find_fallback.
  rewrite scan_eq, scan_fallback. set (l := loaded found) in *.
  set (P := fun m => passes cat m && String.eqb (availability m) "local").
  destruct (find_declared P (lower concept) l) as [HF HH].
  rewrite <- HF, <- HH.
  assert (HL : map (fun a => dict_get a (by_id (scan_loaded l)))
                 (declared_ids fallback_for (lower concept) l)
               = map Some (declared_manifests (lower concept) l)).
  { apply declared_lookup. intros fm Hfm.
    rewrite (proj1 (scan_by_id l _)), nodup_last_loaded by assumption. reflexivity. }
  destruct (declared_ids fallback_for (lower concept) l) as [|a ids] eqn:E.
  - destruct (declared_manifests (lower concept) l); [reflexivity|discriminate].
  - cbn [ext opt_list app]. rewrite (first_local_find _ _ _ _ HL).
    destruct (declared_manifests (lower concept) l) as [|m ms]; [discriminate|].
    cbn [map] in HL. injection HL as Ha _. rewrite Ha.
    destruct (find _ (m :: ms)); reflexivity.
Qed.


(** ** [search] *)

Lemma scored_in (c : AssetCatalog) (q : string) (cat : option string)
  (l : list AssetSummary) (p : nat * AssetSummary) :
  In p (scored c q cat l) ->
  In (snd p) l /\ filtered_out cat (snd p) = false /\ 0 < fst p
  /\ fst p = score c (snd p) q.
Proof.
  induction l as [|s l IH]; simpl; [intros []|].
  destruct (filtered_out cat s) eqn:Ef; [intros H; destruct (IH H) as [? ?]; auto|].
  destruct (Nat.ltb_spec 0 (score c s q)) as [Hlt|Hge].
  - intros [<-|H]; [simpl; auto|]. destruct (IH H) as [? ?]; auto.
  - intros H. destruct (IH H) as [? ?]; auto.
Qed.

Lemma in_scored (c : AssetCatalog) (q : string) (cat : option string)
  (l : list AssetSummary) (s : AssetSummary) :
  In s l -> filtered_out cat s = false -> 0 < score c s q ->
  In (score c s q, s) (scored c q cat l).
Proof.
  induction l as [|s' l IH]; simpl; [intros []|].
  intros [->|H] Hf Hp.
  - rewrite Hf. destruct (Nat.ltb_spec 0 (score c s q)); [left; reflexivity|lia].
  - destruct (filtered_out cat s'); [auto|].
    destruct (Nat.ltb 0 (score c s' q)); [right|]; auto.
Qed.

Lemma insert_desc_perm {A} (x : nat * A) (l : list (nat * A)) :
  Permutation (insert_desc x l) (x :: l).
Proof.
  induction l as [|y l IH]; simpl; [reflexivity|].
  destruct (Nat.ltb (fst y) (fst x)); [reflexivity|].
  rewrite IH. apply perm_swap.
Qed.

Lemma sort_desc_perm_acc {A} (l acc : list (nat * A)) :
  Permutation (fold_left (fun acc x => insert_desc x acc) l acc) (rev l ++ acc).
Proof.
  revert acc. induction l as [|x l IH]; intros acc; simpl; [reflexivity|].
  rewrite IH, insert_desc_perm, <- app_assoc. simpl.
  reflexivity.
Qed.

Lemma sort_desc_perm {A} (l : list (nat * A)) : Permutation (sort_desc l) l.
Proof.
  unfold sort_desc. rewrite sort_desc_perm_acc, app_nil_r. symmetry. apply Permutation_rev.
Qed.

Definition at_score {A} (n : nat) (p : nat * A) : bool := Nat.eqb (fst p) n.

Lemma filter_at_score_nil {A} (n m : nat) (l : list (nat * A)) :
  Forall (fun w => fst w <= m) l -> m < n -> filter (at_score n) l = [].
Proof.
  induction l as [|w l IH]; intros Hl Hmn; simpl; [reflexivity|].
  inversion Hl; subst. unfold at_score at 1.
  destruct (Nat.eqb_spec (fst w) n); [lia|]. apply IH; assumption.
Qed.

Lemma filter_cons {A} (f : A -> bool) (a : A) (m : list A) :
  filter f (a :: m) = (if f a then [a] else []) ++ filter f m.
Proof. simpl. destruct (f a); reflexivity. Qed.

Lemma insert_desc_filter {A} (n : nat) (x : nat * A) (l : list (nat * A)) :
  StronglySorted score_ge l ->
  filter (at_score n) (insert_desc x l) = filter (at_score n) l ++ filter (at_score n) [x].
Proof.
  induction l as [|z l IH]; intros Hs; [reflexivity|].
  inversion Hs as [|? ? Hl Hz]; subst. cbn [insert_desc].
  destruct (Nat.ltb_spec (fst z) (fst x)) as [Hlt|Hge].
  - rewrite (filter_cons _ x (z :: l)), (filter_cons _ x []).
    change (filter (at_score n) []) with (@nil (nat * A)). rewrite app_nil_r.
    destruct (at_score n x) eqn:Hx; [|rewrite app_nil_r; reflexivity].
    unfold at_score in Hx. apply Nat.eqb_eq in Hx.
    rewrite (filter_at_score_nil n (fst z) (z :: l)).
    + reflexivity.
    + constructor; [lia|]. eapply Forall_impl; [|exact Hz]. unfold score_ge. lia.
    + lia.
  - rewrite !(filter_cons _ z), IH by exact Hl. apply app_assoc.
Qed.

Lemma sort_desc_filter_acc {A} (n : nat) (l acc : list (nat * A)) :
  StronglySorted score_ge acc ->
  filter (at_score n) (fold_left (fun acc x => insert_desc x acc) l acc)
  = filter (at_score n) acc ++ filter (at_score n) l.
Proof.
  revert acc. induction l as [|x l IH]; intros acc Hs; simpl; [rewrite app_nil_r; reflexivity|].
  rewrite IH by (apply insert_desc_sorted; exact Hs).
  rewrite insert_desc_filter by exact Hs. rewrite <- app_assoc.
  f_equal. simpl. destruct (at_score n x); reflexivity.
Qed.

Lemma sort_desc_filter {A} (n : nat) (l : list (nat * A)) :
  filter (at_score n) (sort_desc l) = filter (at_score n) l.
Proof. unfold sort_desc. rewrite sort_desc_filter_acc by constructor. reflexivity. Qed.

Lemma filter_map_snd (g : AssetSummary -> nat) (n : nat) (X : list (nat * AssetSummary)) :
  (forall p, In p X -> fst p = g (snd p)) ->
  filter (fun s => Nat.eqb (g s) n) (map snd X) = map snd (filter (at_score n) X).
Proof.
  induction X as [|p X IH]; intros H; simpl; [reflexivity|].
  unfold at_score at 1. rewrite (H p (or_introl eq_refl)).
  rewrite IH by (intros; apply H; right; assumption).
  destruct (Nat.eqb (g (snd p)) n); reflexivity.
Qed.

Lemma scored_at_score (c : AssetCatalog) (q : string) (cat : option string) (n : nat)
  (Hn : 0 < n) (l : list AssetSummary) :
  map snd (filter (at_score n) (scored c q cat l))
  = filter (fun s => negb (filtered_out cat s) && Nat.eqb (score c s q) n) l.
Proof.
  induction l as [|s l IH]; simpl; [reflexivity|].
  destruct (filtered_out cat s); simpl; [exact IH|].
  destruct (Nat.ltb_spec 0 (score c s q)) as [Hlt|Hge].
  - simpl. unfold at_score at 1. simpl. destruct (Nat.eqb (score c s q) n); simpl; rewrite IH; reflexivity.
  - destruct (Nat.eqb_spec (score c s q) n); [lia|exact IH].
Qed.

Lemma firstn_firstn_le {A} (k k' : nat) (l : list A) :
  k <= k' -> exists rest, firstn k' l = firstn k l ++ rest.
Proof.
  intros Hk. exists (skipn k (firstn k' l)).
  rewrite <- (firstn_skipn k (firstn k' l)) at 1.
  rewrite firstn_firstn. f_equal. f_equal. lia.
Qed.

Definition matches (c : AssetCatalog) (q : string) (cat : option string) (s : AssetSummary)
  : bool := negb (filtered_out cat s) && Nat.ltb 0 (score c s q).

Lemma scored_length (c : AssetCatalog) (q : string) (cat : option string) (l : list AssetSummary) :
  List.length (scored c q cat l) = List.length (filter (matches c q cat) l).
Proof.
  induction l as [|s l IH]; simpl; [reflexivity|]. unfold matches at 1.
  destruct (filtered_out cat s); simpl; [exact IH|].
  destruct (Nat.ltb 0 (score c s q)); simpl; rewrite IH; reflexivity.
Qed.

Lemma search_length (c : AssetCatalog) (q : string) (cat : option string) (limit : nat) :
  List.length (search c q cat limit)
  = Nat.min limit (List.length (filter (matches c q cat) (summaries c))).
Proof.
  unfold search. rewrite length_map, length_firstn, (Permutation_length (sort_desc_perm _)).
  rewrite scored_length. reflexivity.
Qed.

Lemma search_sound (c : AssetCatalog) (q : string) (cat : option string) (limit : nat)
  (s : AssetSummary) :
  In s (search c q cat limit) ->
  In s (summaries c) /\ filtered_out cat s = false /\ 0 < score c s q.
Proof.
  intros Hs. unfold search in Hs. apply in_map_iff in Hs as [p [<- Hp]].
  apply in_firstn, (Permutation_in _ (sort_desc_perm _)), scored_in in Hp.
  destruct Hp as [H1 [H2 [H3 H4]]]. rewrite <- H4. auto.
Qed.

(** [search] returns min(limit, number of matching summaries) results, each a summary of the catalog that passes the category filter with a positive score, in non-increasing score order; with enough room every match is returned. *)
Theorem search_results (c : AssetCatalog) (q : string) (cat : option string) (limit : nat) :
  List.length (search c q cat limit)
  = Nat.min limit (List.length (filter (matches c q cat) (summaries c)))
  /\ (forall s, In s (search c q cat limit) ->
        In s (summaries c) /\ filtered_out cat s = false /\ 0 < score c s q)
  /\ (forall i j a b, i < j ->
        nth_error (search c q cat limit) i = Some a ->
        nth_error (search c q cat limit) j = Some b -> score c b q <= score c a q)
  /\ (List.length (filter (matches c q cat) (summaries c)) <= limit ->
      forall s, In s (search c q cat limit)
                <-> In s (summaries c) /\ filtered_out cat s = false /\ 0 < score c s q).
Proof.
  set (L := scored c q cat (summaries c)).
  split; [|split; [apply search_sound|split]].
  - apply search_length.
  - intros i j a b Hij Ha Hb. apply search_nth in Ha, Hb.
    assert (Hs : StronglySorted (@score_ge AssetSummary) (firstn limit (sort_desc L))).
    { apply StronglySorted_firstn, sort_desc_sorted_acc. constructor. }
    exact (StronglySorted_nth _ _ Hs i j _ _ Hij Ha Hb).
  - intros Hle s. split; [apply search_sound|]. intros [H1 [H2 H3]].
    unfold search. fold L.
    rewrite firstn_all2.
    + apply in_map_iff. exists (score c s q, s). split; [reflexivity|].
      apply (Permutation_in _ (Permutation_sym (sort_desc_perm _))). apply in_scored; assumption.
    + rewrite (Permutation_length (sort_desc_perm _)). unfold L. rewrite scored_length. exact Hle.
Qed.

(** Among the results of [search] with one positive score, the order is the scan order: they form a prefix of the matching summaries with that score. *)
Theorem search_ties_in_scan_order (c : AssetCatalog) (q : string) (cat : option string)
  (limit n : nat) (Hn : 0 < n) :
  exists rest,
    filter (fun s => negb (filtered_out cat s) && Nat.eqb (score c s q) n) (summaries c)
    = filter (fun s => Nat.eqb (score c s q) n) (search c q cat limit) ++ rest.
Proof.
  set (L := scored c q cat (summaries c)).
  set (S := sort_desc L).
  exists (map snd (filter (at_score n) (skipn limit S))).
  rewrite <- (scored_at_score c q cat n Hn). fold L.
  rewrite <- (sort_desc_filter n L). fold S.
  rewrite <- (firstn_skipn limit S) at 1. rewrite filter_app, map_app. f_equal.
  unfold search. fold L. fold S. symmetry. apply filter_map_snd.
  intros p Hp. apply in_firstn in Hp. unfold S in Hp.
  apply (Permutation_in _ (sort_desc_perm _)) in Hp. exact (scored_score _ _ _ _ _ Hp).
Qed.

(** The results of [search] with a smaller limit are a prefix of the results with a larger limit. *)
Theorem search_limit_prefix (c : AssetCatalog) (q : string) (cat : option string)
  (k k' : nat) (Hk : k <= k') :
  exists rest, search c q cat k' = search c q cat k ++ rest.
Proof.
  unfold search. destruct (firstn_firstn_le k k' (sort_desc (scored c q cat (summaries c))) Hk)
    as [rest Hr].
  exists (map snd rest). rewrite Hr, map_app. reflexivity.
Qed.

Lemma startswith_empty (s : string) : startswith s "" = true.
Proof. destruct s; reflexivity. Qed.

Lemma str_in_empty (h : string) : str_in "" h = true.
Proof. destruct h; reflexivity. Qed.

Lemma score_empty_pos (c : AssetCatalog) (s : AssetSummary) : 0 < score c s "".
Proof.
  unfold score, id_score, match_score. change (lower "") with "".
  destruct (String.eqb "" (lower (s_asset_id s))); [lia|].
  rewrite str_in_empty. lia.
Qed.

(** An empty query scores every summary positively, so [search] with an empty query returns min(limit, number of summaries passing the category filter) results. *)
Theorem search_empty_query (c : AssetCatalog) (cat : option string) (limit : nat) :
  List.length (search c "" cat limit)
  = Nat.min limit (List.length (filter (fun s => negb (filtered_out cat s)) (summaries c))).
Proof.
  rewrite (search_length c "" cat limit). f_equal. f_equal.
  apply filter_ext. intros s. unfold matches.
  destruct (Nat.ltb_spec 0 (score c s "")) as [_|H]; [apply andb_true_r|].
  pose proof (score_empty_pos c s). lia.
Qed.


(** ** Case of the query, and the empty category *)

Lemma lower_char_idem (ch : ascii) : lower_char (lower_char ch) = lower_char ch.
Proof. destruct ch as [[] [] [] [] [] [] [] []]; reflexivity. Qed.

Lemma lower_idem (s : string) : lower (lower s) = lower s.
Proof. induction s as [|ch s IH]; simpl; [reflexivity|]. rewrite lower_char_idem, IH. reflexivity. Qed.

Lemma score_lower (c : AssetCatalog) (s : AssetSummary) (q : string) :
  score c s (lower q) = score c s q.
Proof. unfold score, id_score, rest_score. rewrite lower_idem. reflexivity. Qed.

Lemma scored_lower (c : AssetCatalog) (q : string) (cat : option string) (l : list AssetSummary) :
  scored c (lower q) cat l = scored c q cat l.
Proof.
  induction l as [|s l IH]; simpl; [reflexivity|]. rewrite score_lower, IH. reflexivity.
Qed.

Lemma search_lower (c : AssetCatalog) (q : string) (cat : option string) (limit : nat) :
  search c (lower q) cat limit = search c q cat limit.
Proof. unfold search. rewrite scored_lower. reflexivity. Qed.

(** [search], [find_fallback], [best_match] and [resolve_asset] give the same result on a query and on its lower-cased form. *)
Theorem query_case_insensitive (c : AssetCatalog) (q : string) (cat : option string) :
  (forall limit, search c (lower q) cat limit = search c q cat limit)
  /\ find_fallback c (lower q) cat = find_fallback c q cat
  /\ (forall prefer_local, best_match c (lower q) cat prefer_local = best_match c q cat prefer_local)
  /\ resolve_asset c (lower q) cat = resolve_asset c q cat.
Proof.
  assert (Hf : find_fallback c (lower q) cat = find_fallback c q cat)
    by (unfold find_fallback; rewrite lower_idem; reflexivity).
  assert (Hb : forall pl, best_match c (lower q) cat pl = best_match c q cat pl)
    by (intros pl; unfold best_match; rewrite search_lower; reflexivity).
  split; [exact (search_lower c q cat)|]. split; [exact Hf|]. split; [exact Hb|].
  unfold resolve_asset. rewrite Hb, Hf. reflexivity.
Qed.

Lemma scored_empty_cat (c : AssetCatalog) (q : string) (l : list AssetSummary) :
  scored c q (Some "") l = scored c q None l.
Proof. induction l as [|s l IH]; simpl; [reflexivity|]. rewrite IH. reflexivity. Qed.

Lemma first_local_empty_cat (c : AssetCatalog) (ids : list string) :
  first_local c (Some "") ids = first_local c None ids.
Proof.
  induction ids as [|a ids IH]; simpl; [reflexivity|].
  destruct (dict_get a (by_id c)); rewrite IH; reflexivity.
Qed.

(** An empty category string is falsy: [search], [list_all], [find_fallback], [best_match] and [resolve_asset] behave with [category = ""] as with no category. *)
Theorem empty_category_is_no_filter (c : AssetCatalog) (q : string) :
  (forall limit, search c q (Some "") limit = search c q None limit)
  /\ list_all c (Some "") = list_all c None
  /\ find_fallback c q (Some "") = find_fallback c q None
  /\ (forall prefer_local, best_match c q (Some "") prefer_local = best_match c q None prefer_local)
  /\ resolve_asset c q (Some "") = resolve_asset c q None.
Proof.
  assert (Hs : forall limit, search c q (Some "") limit = search c q None limit)
    by (intros limit; unfold search; rewrite scored_empty_cat; reflexivity).
  assert (Hf : find_fallback c q (Some "") = find_fallback c q None)
    by (unfold find_fallback; destruct (dict_get _ _); [rewrite first_local_empty_cat|]; reflexivity).
  assert (Hb : forall pl, best_match c q (Some "") pl = best_match c q None pl)
    by (intros pl; unfold best_match; rewrite Hs; reflexivity).
  split; [exact Hs|]. split; [reflexivity|]. split; [exact Hf|]. split; [exact Hb|].
  unfold resolve_asset. rewrite Hb, Hf. reflexivity.
Qed.

(** ** [best_match] and [resolve_asset] on a scanned catalog *)

Lemma dict_mem_get {V} (k : string) (d : Dict V) :
  dict_mem k d = true -> exists v, dict_get k d = Some v.
Proof.
  unfold dict_mem. destruct (dict_get k d) as [v|]; [intros _; exists v; reflexivity|discriminate].
Qed.

Lemma search_scan_indexed (found : list (string * option AssetManifest)) (text : string)
  (cat : option string) (limit : nat) (r : AssetSummary) :
  In r (search (scan found) text cat limit) ->
  exists m, dict_get (s_asset_id r) (by_id (scan found)) = Some m.
Proof.
  intros Hr. apply search_sound in Hr as [Hr _].
  apply dict_mem_get. exact (scan_summaries_indexed found r Hr).
Qed.

(** On a scanned catalog [best_match] never raises [KeyError]: it returns a manifest, or [None] exactly when the search has no result; [resolve_asset] never raises either, and falls back to [find_fallback] when the search is empty. *)
Theorem best_match_scan_no_key_error (found : list (string * option AssetManifest))
  (text : string) (cat : option string) :
  (forall prefer_local,
     (exists m, best_match (scan found) text cat prefer_local = Return (Some m))
     \/ (best_match (scan found) text cat prefer_local = Return None
         /\ search (scan found) text cat 10 = []))
  /\ (exists r, resolve_asset (scan found) text cat = Return r)
  /\ (search (scan found) text cat 10 = [] ->
      resolve_asset (scan found) text cat = Return (find_fallback (scan found) text cat)).
Proof.
  assert (Hbm : forall pl,
     (exists m, best_match (scan found) text cat pl = Return (Some m))
     \/ (best_match (scan found) text cat pl = Return None
         /\ search (scan found) text cat 10 = [])).
  { intros pl. unfold best_match.
    set (R := search (scan found) text cat 10).
    assert (HR : forall r, In r R -> exists m, dict_get (s_asset_id r) (by_id (scan found)) = Some m)
      by (intros r Hr; exact (search_scan_indexed found text cat 10 r Hr)).
    destruct R as [|r0 rs] eqn:ER; [right; split; reflexivity|left].
    assert (Hpick : forall r, In r (r0 :: rs) ->
               exists m, match py_index (by_id (scan found)) (s_asset_id r) with
                         | Return m => Return (Some m) | KeyError k => KeyError k end
                         = Return (Some m)).
    { intros r Hr. destruct (HR r Hr) as [m Hm]. exists m. unfold py_index. rewrite Hm. reflexivity. }
    destruct pl; [|apply Hpick; left; reflexivity].
    destruct (filter (fun r => String.eqb (s_availability r) "local") (r0 :: rs)) as [|l0 ls] eqn:EL.
    - apply Hpick. left. reflexivity.
    - apply Hpick. assert (Hl0 : In l0 (l0 :: ls)) by (left; reflexivity).
      rewrite <- EL in Hl0. apply filter_In in Hl0. exact (proj1 Hl0). }
  split; [exact Hbm|]. unfold resolve_asset.
  destruct (Hbm true) as [[m Hm]|[Hn Hs]].
  - rewrite Hm. split; [eexists; reflexivity|].
    intros Hs. exfalso. unfold best_match in Hm. rewrite Hs in Hm. discriminate.
  - rewrite Hn. split; [eexists; reflexivity|]. intros _. reflexivity.
Qed.

Lemma scan_summary_lookup (l : list (string * AssetManifest))
  (Hnd : NoDup (map (fun fm => asset_id (snd fm)) l)) (r : AssetSummary) :
  In r (summaries (scan_loaded l)) ->
  exists f m, In (f, m) l /\ r = summary_of f m
              /\ dict_get (s_asset_id r) (by_id (scan_loaded l)) = Some m.
Proof.
  rewrite scan_summaries. intros Hr. apply in_map_iff in Hr as [[f m] [<- Hfm]].
  exists f, m. split; [exact Hfm|]. split; [reflexivity|].
  simpl. rewrite (proj1 (scan_by_id l _)).
  pose proof (nodup_last_loaded l (f, m) Hnd Hfm) as E. simpl in E. rewrite E. reflexivity.
Qed.

(** On a scanned catalog with distinct ids, the manifest [best_match] returns is a loaded manifest whose summary is among the top 10 search results, and it is local whenever [prefer_local] is set and some top result is local. *)
Theorem best_match_scan_manifest (found : list (string * option AssetManifest))
  (text : string) (cat : option string) (prefer_local : bool)
  (Hnd : NoDup (map (fun fm => asset_id (snd fm)) (loaded found))) :
  forall m, best_match (scan found) text cat prefer_local = Return (Some m) ->
    exists f, In (f, m) (loaded found)
      /\ In (summary_of f m) (search (scan found) text cat 10)
      /\ (prefer_local = true ->
          existsb (fun r => String.eqb (s_availability r) "local")
            (search (scan found) text cat 10) = true ->
          availability m = "local").
Proof.
  intros m. unfold best_match.
  set (R := search (scan found) text cat 10).
  assert (HR : forall r, In r R ->
            exists f m, In (f, m) (loaded found) /\ r = summary_of f m
              /\ dict_get (s_asset_id r) (by_id (scan found)) = Some m).
  { intros r Hr. unfold R in Hr. rewrite scan_eq in Hr |- *.
    apply search_sound in Hr as [Hr _].
    exact (scan_summary_lookup _ Hnd r Hr). }
  assert (Hpick : forall r, In r R ->
            match py_index (by_id (scan found)) (s_asset_id r) with
            | Return m => Return (Some m) | KeyError k => KeyError k end = Return (Some m) ->
            exists f, In (f, m) (loaded found) /\ r = summary_of f m).
  { intros r Hr H. destruct (HR r Hr) as [f [m' [Hin [-> Hget]]]].
    unfold py_index in H. rewrite Hget in H. injection H as <-. exists f. auto. }
  destruct R as [|r0 rs] eqn:ER; [discriminate|].
  destruct prefer_local.
  - destruct (filter (fun r => String.eqb (s_availability r) "local") (r0 :: rs))
      as [|l0 ls] eqn:EL.
    + intros H. destruct (Hpick r0 (or_introl eq_refl) H) as [f [Hin Heq]].
      exists f. split; [exact Hin|]. split; [left; exact Heq|].
      intros _ Hex. apply existsb_exists in Hex as [r [Hr Hloc]].
      assert (Hr' : In r (filter (fun r => String.eqb (s_availability r) "local") (r0 :: rs)))
        by (apply filter_In; auto).
      rewrite EL in Hr'. destruct Hr'.
    + assert (Hl0 : In l0 (filter (fun r => String.eqb (s_availability r) "local") (r0 :: rs)))
        by (rewrite EL; left; reflexivity).
      apply filter_In in Hl0 as [Hl0 Hloc].
      intros H. destruct (Hpick l0 Hl0 H) as [f [Hin Heq]].
      exists f. split; [exact Hin|]. split; [rewrite <- Heq; exact Hl0|].
      intros _ _. apply String.eqb_eq in Hloc. rewrite Heq in Hloc. exact Hloc.
  - intros H. destruct (Hpick r0 (or_introl eq_refl) H) as [f [Hin Heq]].
    exists f. split; [exact Hin|]. split; [left; exact Heq|]. discriminate.
Qed.

(** ** [for_llm_prompt] *)

Definition kept (local_only : bool) (s : AssetSummary) : bool :=
  negb (local_only && String.eqb (s_availability s) "remote").

Lemma prompt_fold_filter {D} (to_dict : AssetSummary -> D) (lo : bool) :
  forall (l : list AssetSummary) (d : Dict (list D)),
    fold_left (fun res s =>
                 if lo && String.eqb (s_availability s) "remote" then res
                 else dict_push (s_category s) (to_dict s) res) l d
    = fold_left (fun res s => dict_push (s_category s) (to_dict s) res) (filter (kept lo) l) d.
Proof.
  induction l as [|s l IH]; intros d; [reflexivity|].
  cbn [fold_left]. rewrite (filter_cons (kept lo) s l). unfold kept at 1.
  destruct (lo && String.eqb (s_availability s) "remote"); cbn [negb app fold_left]; apply IH.
Qed.

(** [for_llm_prompt] maps each category to the [to_dict] of its kept summaries in scan order (remote ones dropped when [local_only]), has no other keys, and lists its categories once each in first-seen order. *)
Theorem for_llm_prompt_groups (D : Type) (to_dict : AssetSummary -> D) (c : AssetCatalog)
  (local_only : bool) :
  (forall k, dict_get k (for_llm_prompt D to_dict c local_only)
             = ext None (map to_dict (filter (fun s => String.eqb (s_category s) k)
                                        (filter (kept local_only) (summaries c)))))
  /\ dict_keys (for_llm_prompt D to_dict c local_only)
     = uniq (map s_category (filter (kept local_only) (summaries c)))
  /\ NoDup (dict_keys (for_llm_prompt D to_dict c local_only)).
Proof.
  unfold for_llm_prompt. rewrite prompt_fold_filter.
  assert (Hk : dict_keys (fold_left (fun res s => dict_push (s_category s) (to_dict s) res)
                            (filter (kept local_only) (summaries c)) [])
               = uniq (map s_category (filter (kept local_only) (summaries c))))
    by (rewrite dict_keys_push_fold; reflexivity).
  split; [|split; [exact Hk|rewrite Hk; apply uniq_nodup]].
  intros k. rewrite dict_get_push_fold. reflexivity.
Qed.


(** ** Decimal rendering *)

Fixpoint dec_rev (ds : list ascii) : nat :=
  match ds with
  | [] => 0
  | d :: ds' => (nat_of_ascii d - 48) + 10 * dec_rev ds'
  end.

Lemma digit_char (n : nat) : nat_of_ascii (ascii_of_nat (48 + n mod 10)) = 48 + n mod 10.
Proof.
  apply nat_ascii_embedding. pose proof (Nat.mod_upper_bound n 10). lia.
Qed.

Lemma dec_digits_rev (fuel n : nat) : n < fuel -> dec_rev (digits_rev fuel n) = n.
Proof.
  revert n. induction fuel as [|f IH]; intros n Hn; [lia|].
  cbn [digits_rev].
  pose proof (Nat.div_mod_eq n 10) as Hdm. pose proof (Nat.mod_upper_bound n 10).
  destruct (Nat.ltb_spec n 10) as [Hlt|Hge]; cbn [dec_rev]; rewrite digit_char.
  - rewrite Nat.mod_small by lia. lia.
  - rewrite IH.
    + lia.
    + assert (n / 10 < n) by (apply Nat.div_lt; lia). lia.
Qed.

Lemma str_of_nat_inj (n m : nat) : str_of_nat n = str_of_nat m -> n = m.
Proof.
  unfold str_of_nat. intros H.
  apply (f_equal list_ascii_of_string) in H. rewrite !list_ascii_of_string_of_list_ascii in H.
  apply (f_equal (@rev ascii)) in H. rewrite !rev_involutive in H.
  apply (f_equal dec_rev) in H. rewrite !dec_digits_rev in H by lia. exact H.
Qed.

Definition is_digit (ch : ascii) : bool :=
  Nat.leb 48 (nat_of_ascii ch) && Nat.leb (nat_of_ascii ch) 57.

Fixpoint all_digits (s : string) : bool :=
  match s with
  | EmptyString => true
  | String ch s' => is_digit ch && all_digits s'
  end.

Lemma all_digits_list (l : list ascii) :
  all_digits (string_of_list_ascii l) = forallb is_digit l.
Proof. induction l as [|ch l IH]; simpl; [reflexivity|]. rewrite IH. reflexivity. Qed.

Lemma digits_rev_digits (fuel n : nat) : forallb is_digit (digits_rev fuel n) = true.
Proof.
  revert n. induction fuel as [|f IH]; intros n; [reflexivity|].
  assert (Hd : is_digit (ascii_of_nat (48 + n mod 10)) = true).
  { unfold is_digit. rewrite digit_char. pose proof (Nat.mod_upper_bound n 10).
    apply andb_true_intro. split; apply Nat.leb_le; lia. }
  cbn [digits_rev].
  destruct (Nat.ltb n 10); cbn [forallb]; rewrite Hd; [reflexivity|apply IH].
Qed.

Lemma forallb_rev {A} (p : A -> bool) (l : list A) : forallb p (rev l) = forallb p l.
Proof.
  induction l as [|x l IH]; simpl; [reflexivity|].
  rewrite forallb_app, IH. simpl. rewrite andb_true_r, andb_comm. reflexivity.
Qed.

Lemma str_of_nat_digits (n : nat) : all_digits (str_of_nat n) = true.
Proof. unfold str_of_nat. rewrite all_digits_list, forallb_rev. apply digits_rev_digits. Qed.

Lemma str_of_nat_nonempty (n : nat) : str_of_nat n <> "".
Proof.
  unfold str_of_nat. cbn [digits_rev].
  destruct (Nat.ltb n 10); cbn [rev app].
  - discriminate.
  - destruct (rev (digits_rev n (n / 10))); discriminate.
Qed.

(** Splitting at the first ["_"]. *)
Lemma split_underscore (a a' x x' : string) :
  all_digits a = true -> all_digits a' = true ->
  (a ++ String "_" x = a' ++ String "_" x')%string -> a = a' /\ x = x'.
Proof.
  revert a'. induction a as [|ch a IH]; intros [|ch' a'] Ha Ha' H; simpl in *.
  - injection H as H. auto.
  - injection H as Hc _. subst ch'. discriminate.
  - injection H as Hc _. subst ch. discriminate.
  - injection H as Hc H. subst ch'.
    apply andb_prop in Ha as [_ Ha]. apply andb_prop in Ha' as [_ Ha'].
    destruct (IH a' Ha Ha' H) as [-> ->]. auto.
Qed.

Lemma append_cancel_l (b x y : string) : (b ++ x = b ++ y)%string -> x = y.
Proof. induction b as [|ch b IH]; simpl; [auto|]. intros H. injection H. exact IH. Qed.

Lemma nodup_map_inj {A B} (f : A -> B) (l : list A) :
  (forall x y, f x = f y -> x = y) -> NoDup l -> NoDup (map f l).
Proof.
  intros Hf. induction 1 as [|x l Hx Hl IH]; simpl; constructor; [|exact IH].
  intros Hin. apply in_map_iff in Hin as [y [Hy Hin]]. apply Hf in Hy. subst. contradiction.
Qed.

Lemma nodup_flat_map {A B} (f : A -> list B) (l : list A) :
  NoDup l -> (forall x, In x l -> NoDup (f x)) ->
  (forall x y z, In x l -> In y l -> In z (f x) -> In z (f y) -> x = y) ->
  NoDup (flat_map f l).
Proof.
  induction l as [|x l IH]; intros Hl Hf Hdisj; simpl; [constructor|].
  inversion Hl as [|? ? Hx Hl']; subst.
  apply NoDup_app.
  - apply Hf. left. reflexivity.
  - apply IH; [exact Hl'|intros; apply Hf; right; assumption|].
    intros; eapply Hdisj; eauto; right; assumption.
  - intros z Hz Hz'. apply in_flat_map in Hz' as [y [Hy Hzy]].
    assert (x = y) by (eapply Hdisj; [left; reflexivity|right; exact Hy|exact Hz|exact Hzy]).
    subst. contradiction.
Qed.

(** The suffix a grid cell carries. *)
Definition cell_suffix (row col : nat) : string :=
  "r" ++ str_of_nat row ++ "_c" ++ str_of_nat col.

Lemma cell_suffix_inj (r c r' c' : nat) :
  cell_suffix r c = cell_suffix r' c' -> r = r' /\ c = c'.
Proof.
  unfold cell_suffix. simpl. intros H. injection H as H.
  destruct (split_underscore _ _ _ _ (str_of_nat_digits r) (str_of_nat_digits r') H)
    as [Hr Hc].
  injection Hc as Hc. split; apply str_of_nat_inj; assumption.
Qed.

(** ** Instance names *)

Section NameProofs.

Variable RngState : Type.
Variable rng_new : Z -> RngState.
Variable rng_random : RngState -> float * RngState.
Variables math_cos math_sin : float -> float.

Lemma grid_cols_suffixes (g : GridLayout) (row : nat) :
  forall left col st,
    map name_suffix (fst (grid_cols RngState rng_random g row col left st))
    = map (fun c => Some (cell_suffix row c)) (seq col left).
Proof.
  induction left as [|left IH]; intros col st; simpl; [reflexivity|].
  destruct (grid_cell RngState rng_random g row col st) as [i st1] eqn:E1.
  destruct (grid_cols RngState rng_random g row (S col) left st1) as [is st2] eqn:E2.
  simpl. rewrite <- (IH (S col) st1), E2. f_equal.
  unfold grid_cell in E1.
  destruct (PrimFloat.ltb 0 (yaw_variation_deg g));
    [destruct (rng_uniform _ _ _ _ _)|]; injection E1 as <- _; reflexivity.
Qed.

Lemma grid_rows_suffixes (g : GridLayout) :
  forall left row st,
    map name_suffix (fst (grid_rows RngState rng_random g row left st))
    = map Some (flat_map (fun r => map (cell_suffix r) (seq 0 (cols g))) (seq row left)).
Proof.
  induction left as [|left IH]; intros row st; simpl; [reflexivity|].
  destruct (grid_cols RngState rng_random g row 0 (cols g) st) as [is st1] eqn:E1.
  destruct (grid_rows RngState rng_random g (S row) left st1) as [js st2] eqn:E2.
  simpl. rewrite map_app, map_app.
  rewrite <- (IH (S row) st1), E2.
  pose proof (grid_cols_suffixes g row (cols g) 0 st) as H. rewrite E1 in H. simpl in H.
  rewrite H, map_map. reflexivity.
Qed.

Lemma random_points_suffixes (l : RandomLayout) :
  forall left i placed st,
    map name_suffix (random_points RngState rng_random math_cos math_sin l i left placed st)
    = map (fun k => Some (str_of_nat k)) (seq i left).
Proof.
  induction left as [|left IH]; intros i placed st; [reflexivity|].
  cbn [random_points].
  destruct (try_place RngState rng_random math_cos math_sin l max_attempts placed (0%float, 0%float) st)
    as [[p ok] st1].
  destruct (if random_yaw l then rng_uniform RngState rng_random 0 360 st1 else (0%float, st1))
    as [yaw st2].
  cbn [map seq name_suffix]. f_equal. apply IH.
Qed.

(** The suffix the instance loop gives the [idx]-th instance. *)
Definition suffix_of (idx : nat) (inst : InstanceSpec) : string :=
  match name_suffix inst with
  | Some (String _ _ as sfx) => sfx
  | _ => str_of_nat idx
  end.

Fixpoint suffixes (idx : nat) (insts : list InstanceSpec) : list string :=
  match insts with
  | [] => []
  | inst :: rest => suffix_of idx inst :: suffixes (S idx) rest
  end.

Lemma inst_names_suffixes (base : string) :
  forall insts idx,
    inst_names base idx insts = map (fun s => (base ++ "_" ++ s)%string) (suffixes idx insts).
Proof.
  induction insts as [|inst rest IH]; intros idx; simpl; [reflexivity|].
  rewrite IH. f_equal. unfold body_name_of, suffix_of.
  destruct (name_suffix inst) as [[|ch s]|]; reflexivity.
Qed.

Lemma suffixes_given :
  forall insts ss idx,
    map name_suffix insts = map Some ss -> Forall (fun s => s <> "") ss ->
    suffixes idx insts = ss.
Proof.
  induction insts as [|inst rest IH]; intros [|s ss] idx H Hne; simpl in H;
    try discriminate; [reflexivity|].
  injection H as Hs Hr. inversion Hne as [|? ? Hs' Hne']; subst.
  simpl. rewrite (IH ss (S idx) Hr Hne'). f_equal.
  unfold suffix_of. rewrite Hs. destruct s; [contradiction|reflexivity].
Qed.

Lemma map_some_forall_nonempty (f : nat -> string) (l : list nat) :
  (forall k, f k <> "") -> Forall (fun s => s <> "") (map f l).
Proof. intros Hf. apply Forall_forall. intros s Hs. apply in_map_iff in Hs as [k [<- _]]. apply Hf. Qed.

(** An object without explicit instances gets pairwise distinct body names, whatever its layout (none, grid or random). *)
Theorem laid_out_names_distinct (o : ObjectSpec) (seed : Z) (Hinst : instances o = None) :
  NoDup (object_names RngState rng_new rng_random math_cos math_sin seed o).
Proof.
  unfold object_names, layout_instances. rewrite Hinst.
  rewrite inst_names_suffixes.
  apply nodup_map_inj; [intros x y H; apply append_cancel_l in H; injection H as H; exact H|].
  destruct (layout o) as [[g|l]|].
  - unfold grid_instances.
    rewrite (suffixes_given _ (flat_map (fun r => map (cell_suffix r) (seq 0 (cols g)))
                                  (seq 0 (rows g)))).
    + apply nodup_flat_map; [apply seq_NoDup| |].
      * intros r _. apply nodup_map_inj; [|apply seq_NoDup].
        intros c c' H. exact (proj2 (cell_suffix_inj _ _ _ _ H)).
      * intros r r' z _ _ Hz Hz'. apply in_map_iff in Hz as [c [<- _]].
        apply in_map_iff in Hz' as [c' [H _]]. symmetry in H.
        exact (proj1 (cell_suffix_inj _ _ _ _ H)).
    + rewrite grid_rows_suffixes. reflexivity.
    + apply Forall_forall. intros s Hs. apply in_flat_map in Hs as [r [_ Hs]].
      apply in_map_iff in Hs as [c [<- _]]. unfold cell_suffix. discriminate.
  - unfold random_instances.
    rewrite (suffixes_given _ (map str_of_nat (seq 0 (count l)))).
    + apply nodup_map_inj; [exact str_of_nat_inj|apply seq_NoDup].
    + rewrite random_points_suffixes, map_map. reflexivity.
    + apply map_some_forall_nonempty. exact str_of_nat_nonempty.
  - simpl. constructor; [intros []|constructor].
Qed.

(** ** The seed *)

Definition seed_free (o : ObjectSpec) : bool :=
  match instances o with
  | Some _ => true
  | None =>
      match layout o with
      | None => true
      | Some (LGrid g) => negb (PrimFloat.ltb 0 (yaw_variation_deg g))
      | Some (LRandom _) => false
      end
  end.

Lemma grid_cols_no_yaw (g : GridLayout) (Hg : PrimFloat.ltb 0 (yaw_variation_deg g) = false)
  (row : nat) :
  forall left col st st',
    fst (grid_cols RngState rng_random g row col left st)
    = fst (grid_cols RngState rng_random g row col left st')
    /\ snd (grid_cols RngState rng_random g row col left st) = st
    /\ Forall (fun i => yaw_deg (pose i) = 0%float)
         (fst (grid_cols RngState rng_random g row col left st)).
Proof.
  induction left as [|left IH]; intros col st st'; simpl; [auto|].
  unfold grid_cell. rewrite Hg. cbn beta iota.
  destruct (IH (S col) st st') as [H1 [H2 H3]].
  destruct (grid_cols RngState rng_random g row (S col) left st) as [is st2] eqn:E.
  destruct (grid_cols RngState rng_random g row (S col) left st') as [is' st2'] eqn:E'.
  simpl in *. subst. split; [reflexivity|]. split; [reflexivity|].
  constructor; [reflexivity|exact H3].
Qed.

Lemma grid_rows_no_yaw (g : GridLayout) (Hg : PrimFloat.ltb 0 (yaw_variation_deg g) = false) :
  forall left row st st',
    fst (grid_rows RngState rng_random g row left st)
    = fst (grid_rows RngState rng_random g row left st')
    /\ Forall (fun i => yaw_deg (pose i) = 0%float)
         (fst (grid_rows RngState rng_random g row left st)).
Proof.
  induction left as [|left IH]; intros row st st'; [split; [reflexivity|constructor]|].
  cbn [grid_rows].
  destruct (grid_cols_no_yaw g Hg row (cols g) 0 st st') as [C1 [C2 C3]].
  destruct (grid_cols_no_yaw g Hg row (cols g) 0 st' st) as [_ [C2' _]].
  destruct (grid_cols RngState rng_random g row 0 (cols g) st) as [is st1] eqn:E1.
  destruct (grid_cols RngState rng_random g row 0 (cols g) st') as [is' st1'] eqn:E1'.
  simpl in C1, C2, C3, C2'. subst.
  destruct (IH (S row) st st') as [R1 R2].
  destruct (grid_rows RngState rng_random g (S row) left st) as [js st2].
  destruct (grid_rows RngState rng_random g (S row) left st') as [js' st2'].
  simpl in *. subst. split; [reflexivity|]. apply Forall_app. auto.
Qed.

(** A grid layout whose yaw variation is not positive draws no random numbers: its instances do not depend on the seed and all have yaw 0. *)
Theorem grid_without_yaw_variation (g : GridLayout)
  (Hg : PrimFloat.ltb 0 (yaw_variation_deg g) = false) (seed1 seed2 : Z) :
  grid_instances RngState rng_new rng_random g seed1
  = grid_instances RngState rng_new rng_random g seed2
  /\ Forall (fun i => yaw_deg (pose i) = 0%float)
       (grid_instances RngState rng_new rng_random g seed1).
Proof.
  unfold grid_instances.
  destruct (grid_rows_no_yaw g Hg (rows g) 0 (rng_new seed1) (rng_new seed2)) as [H1 H2].
  auto.
Qed.

Lemma layout_seed_free (o : ObjectSpec) (Ho : seed_free o = true) (seed1 seed2 : Z) :
  layout_instances RngState rng_new rng_random math_cos math_sin o seed1
  = layout_instances RngState rng_new rng_random math_cos math_sin o seed2.
Proof.
  unfold seed_free in Ho. unfold layout_instances.
  destruct (instances o); [reflexivity|].
  destruct (layout o) as [[g|l]|]; [|discriminate|reflexivity].
  apply negb_true_iff in Ho.
  unfold grid_instances.
  exact (proj1 (grid_rows_no_yaw g Ho (rows g) 0 (rng_new seed1) (rng_new seed2))).
Qed.

End NameProofs.


Section CompilerExtras.

Variable RngState : Type.
Variable rng_new : Z -> RngState.
Variable rng_random : RngState -> float * RngState.
Variables math_cos math_sin : float -> float.
Variable math_atan2 : float -> float -> float.
Variable format_vec : list float -> string.
Variable str_float : float -> string.
Variable parse_fragment : string -> Parsed.
Variable tostring_pretty : Element -> string.

Local Abbreviation obj_bodies :=
  (object_bodies RngState rng_new rng_random math_cos math_sin format_vec parse_fragment).
Local Abbreviation build :=
  (build_mjcf RngState rng_new rng_random math_cos math_sin math_atan2 format_vec
     str_float parse_fragment).
Local Abbreviation to_mjcf :=
  (scene_to_mjcf RngState rng_new rng_random math_cos math_sin math_atan2 format_vec
     str_float parse_fragment tostring_pretty).

Lemma get_contains (cat : AssetCatalog) (aid : string) (m : AssetManifest) :
  get cat aid = Ok m -> contains cat aid = true.
Proof.
  unfold get, contains, dict_mem. destruct (dict_get aid (by_id cat)); [reflexivity|discriminate].
Qed.

Lemma get_path_mem (cat : AssetCatalog) (aid folder : string) :
  get_path cat aid = Ok folder -> dict_mem aid (paths cat) = true.
Proof.
  unfold get_path, dict_mem. destruct (dict_get aid (paths cat)); [reflexivity|discriminate].
Qed.

Lemma object_bodies_assets (fs : FileSystem) (cat : AssetCatalog) (seed : Z) :
  forall objs acc acc',
    obj_bodies fs cat seed objs acc = Ok acc' ->
    Forall (fun o => contains cat (o_asset_id o) = true
                     /\ dict_mem (o_asset_id o) (paths cat) = true) objs.
Proof.
  induction objs as [|o objs IH]; intros acc acc' H; [constructor|]. simpl in H.
  destruct (get cat (o_asset_id o)) as [m|e] eqn:Em; [|discriminate]. simpl in H.
  destruct (get_path cat (o_asset_id o)) as [folder|e] eqn:Ep; [|discriminate]. simpl in H.
  destruct (instance_bodies _ _ _ _ _ _ _ _) as [acc1|e]; [|discriminate]. simpl in H.
  constructor; [split; [exact (get_contains _ _ _ Em)|exact (get_path_mem _ _ _ Ep)]|].
  exact (IH _ _ H).
Qed.

(** A successful compilation looked up the environment and every object in the catalog and in its paths; an environment id missing from the catalog makes compilation and [scene_to_mjcf] raise [AssetNotFoundError] with the similar ids. *)
Theorem compile_asset_lookup (fs : FileSystem) (sc : SceneSpec) (cat : AssetCatalog)
  (seed : Z) :
  (forall doc, build fs sc cat seed = Ok doc ->
     contains cat (env_asset_id (environment sc)) = true
     /\ dict_mem (env_asset_id (environment sc)) (paths cat) = true
     /\ Forall (fun o => contains cat (o_asset_id o) = true
                         /\ dict_mem (o_asset_id o) (paths cat) = true) (objects sc))
  /\ (dict_get (env_asset_id (environment sc)) (by_id cat) = None ->
      build fs sc cat seed
      = Err (AssetNotFoundError (env_asset_id (environment sc))
               (find_similar cat (env_asset_id (environment sc)) 3))
      /\ to_mjcf fs sc cat seed
         = Err (AssetNotFoundError (env_asset_id (environment sc))
                  (find_similar cat (env_asset_id (environment sc)) 3))).
Proof.
  split.
  - intros doc Hok. unfold build_mjcf in Hok.
    destruct (get cat _) as [m|e] eqn:Em; [|discriminate]. simpl in Hok.
    destruct (get_path cat _) as [folder|e] eqn:Ep; [|discriminate]. simpl in Hok.
    destruct (load_asset_content _ _ _ _) as [env_c|e]; [|discriminate]. simpl in Hok.
    destruct (obj_bodies fs cat seed (objects sc) _) as [acc|e] eqn:E; [|discriminate].
    split; [exact (get_contains _ _ _ Em)|]. split; [exact (get_path_mem _ _ _ Ep)|].
    exact (object_bodies_assets _ _ _ _ _ _ E).
  - intros Hn.
    assert (Hb : build fs sc cat seed
                 = Err (AssetNotFoundError (env_asset_id (environment sc))
                          (find_similar cat (env_asset_id (environment sc)) 3)))
      by (unfold build_mjcf, get; rewrite Hn; reflexivity).
    split; [exact Hb|]. unfold scene_to_mjcf. rewrite Hb. reflexivity.
Qed.

Lemma object_bodies_seed_free (fs : FileSystem) (cat : AssetCatalog) (seed1 seed2 : Z) :
  forall objs acc, forallb seed_free objs = true ->
    obj_bodies fs cat seed1 objs acc = obj_bodies fs cat seed2 objs acc.
Proof.
  induction objs as [|o objs IH]; intros acc H; [reflexivity|].
  simpl in H. apply andb_prop in H as [Ho H]. simpl.
  destruct (get cat (o_asset_id o)); simpl; [|reflexivity].
  destruct (get_path cat (o_asset_id o)); simpl; [|reflexivity].
  rewrite (layout_seed_free RngState rng_new rng_random math_cos math_sin o Ho seed1 seed2).
  destruct (instance_bodies _ _ _ _ _ _ _ _); simpl; [apply IH; exact H|reflexivity].
Qed.

(** When no object draws random numbers (explicit instances, no layout, or grids without yaw variation), the compiled scene and its XML text do not depend on the seed. *)
Theorem compile_seed_irrelevant (fs : FileSystem) (sc : SceneSpec) (cat : AssetCatalog)
  (Hfree : forallb seed_free (objects sc) = true) (seed1 seed2 : Z) :
  build fs sc cat seed1 = build fs sc cat seed2
  /\ to_mjcf fs sc cat seed1 = to_mjcf fs sc cat seed2.
Proof.
  assert (Hb : build fs sc cat seed1 = build fs sc cat seed2).
  { unfold build_mjcf.
    destruct (get cat _); simpl; [|reflexivity].
    destruct (get_path cat _); simpl; [|reflexivity].
    destruct (load_asset_content _ _ _ _); simpl; [|reflexivity].
    rewrite (object_bodies_seed_free fs cat seed1 seed2 _ _ Hfree). reflexivity. }
  split; [exact Hb|]. unfold scene_to_mjcf. rewrite Hb. reflexivity.
Qed.

End CompilerExtras.


(** ** Fragment renaming *)

Section ElementInd.
Variable P : Element -> Prop.
Hypothesis HElem : forall t a c, Forall P c -> P (Elem t a c).
Fixpoint element_ind' (e : Element) : P e :=
  match e with
  | Elem t a c =>
      HElem t a c
        ((fix go (l : list Element) : Forall P l :=
            match l with
            | [] => Forall_nil P
            | x :: l' => Forall_cons x (element_ind' x) (go l')
            end) c)
  end.
End ElementInd.

Fixpoint nodupb (l : list string) : bool :=
  match l with
  | [] => true
  | x :: l' => negb (existsb (String.eqb x) l') && nodupb l'
  end.

Lemma nodupb_NoDup (l : list string) : nodupb l = true -> NoDup l.
Proof.
  induction l as [|x l IH]; simpl; [constructor|].
  intros H. apply andb_prop in H as [Hx Hl]. constructor; [|exact (IH Hl)].
  intros Hin. apply negb_true_iff in Hx.
  assert (existsb (String.eqb x) l = true)
    by (apply existsb_exists; exists x; split; [exact Hin|apply String.eqb_refl]).
  congruence.
Qed.

(** An [ElementTree] element's [attrib] is a dict: its keys are distinct. *)
Fixpoint attrs_ok (e : Element) : bool :=
  let 'Elem _ a c := e in nodupb (map fst a) && forallb attrs_ok c.

Definition is_ref (k : string) : bool := String.eqb k "name" || existsb (String.eqb k) ref_attrs.

(** The value an attribute [k = v] has after renaming with the names [N]. *)
Definition frag_rename (prefix : string) (N : list string) (k v : string) : string :=
  if is_ref k && existsb (String.eqb v) N then (prefix ++ "_" ++ v)%string else v.

Fixpoint tree_map (f : string -> string -> string) (e : Element) : Element :=
  let 'Elem t a c := e in
  Elem t (map (fun kv => (fst kv, f (fst kv) (snd kv))) a) (map (tree_map f) c).

Definition section_names (s : option Element) : list string :=
  match s with Some e => all_names e | None => [] end.

Lemma collect_names_get (prefix n : string) :
  forall e nm, dict_get n (collect_names prefix e nm)
    = if existsb (String.eqb n) (all_names e) then Some (prefix ++ "_" ++ n)%string
      else dict_get n nm.
Proof.
  intros e. induction e as [t a c IHc] using element_ind'. intros nm.
  cbn [collect_names all_names].
  assert (Hfold : forall nm0,
    dict_get n (fold_left (fun acc ch => collect_names prefix ch acc) c nm0)
    = if existsb (String.eqb n) (flat_map all_names c) then Some (prefix ++ "_" ++ n)%string
      else dict_get n nm0).
  { induction IHc as [|x c Hx Hc IH]; intros nm0; simpl; [reflexivity|].
    rewrite IH, Hx, existsb_app.
    destruct (existsb (String.eqb n) (all_names x)), (existsb (String.eqb n) (flat_map all_names c));
      reflexivity. }
  rewrite Hfold, existsb_app.
  destruct (existsb (String.eqb n) (flat_map all_names c)); [rewrite orb_true_r; reflexivity|].
  rewrite orb_false_r.
  destruct (dict_get "name" a) as [x|]; simpl; [|reflexivity].
  rewrite dict_get_set, orb_false_r.
  destruct (String.eqb_spec n x) as [->|]; reflexivity.
Qed.

Definition rv (nm : Dict string) (v : string) : string :=
  match dict_get v nm with Some v' => v' | None => v end.

Definition upd (nm : Dict string) (k : string) (kv : string * string) : string * string :=
  if String.eqb (fst kv) k then (fst kv, rv nm (snd kv)) else kv.

(** One reference attribute's step in [rename_attrs]. *)
Definition step (nm : Dict string) (a : list (string * string)) (k : string)
  : list (string * string) :=
  match dict_get k a with
  | Some old => match dict_get old nm with
                | Some nw => dict_set k nw a
                | None => a
                end
  | None => a
  end.

Lemma rename_attrs_steps (nm : Dict string) (a : list (string * string)) :
  rename_attrs nm a = fold_left (step nm) ("name" :: ref_attrs) a.
Proof. reflexivity. Qed.

Lemma map_upd_other (nm : Dict string) (k : string) (a : list (string * string)) :
  ~ In k (map fst a) -> map (upd nm k) a = a.
Proof.
  induction a as [|[k0 v0] a IH]; simpl; [reflexivity|]. intros Hn.
  unfold upd at 1. simpl. destruct (String.eqb_spec k0 k); [exfalso; apply Hn; left; assumption|].
  rewrite IH by tauto. reflexivity.
Qed.

Lemma step_map (nm : Dict string) (k : string) (a : list (string * string)) :
  NoDup (map fst a) -> step nm a k = map (upd nm k) a.
Proof.
  induction a as [|[k0 v0] a IH]; intros Hnd; [reflexivity|].
  simpl in Hnd. inversion Hnd as [|? ? Hk0 Hnd']; subst.
  unfold step. cbn [dict_get map]. unfold upd at 1. cbn [fst snd].
  destruct (String.eqb_spec k k0) as [->|Hne].
  - rewrite String.eqb_refl, (map_upd_other nm k0 a Hk0).
    unfold rv. destruct (dict_get v0 nm) as [nw|]; [|reflexivity].
    cbn [dict_set]. rewrite String.eqb_refl. reflexivity.
  - destruct (String.eqb_spec k0 k) as [Heq|_]; [congruence|].
    rewrite <- IH by exact Hnd'. unfold step.
    destruct (dict_get k a) as [old|]; [|reflexivity].
    destruct (dict_get old nm) as [nw|]; [|reflexivity].
    cbn [dict_set]. destruct (String.eqb_spec k k0); [contradiction|reflexivity].
Qed.

Lemma map_fst_upd (nm : Dict string) (k : string) (a : list (string * string)) :
  map fst (map (upd nm k) a) = map fst a.
Proof.
  rewrite map_map. apply map_ext. intros [k0 v0]. unfold upd. simpl.
  destruct (String.eqb k0 k); reflexivity.
Qed.

Lemma steps_map (nm : Dict string) :
  forall keys a, NoDup (map fst a) ->
    fold_left (step nm) keys a = map (fun kv => fold_left (fun kv r => upd nm r kv) keys kv) a.
Proof.
  induction keys as [|k keys IH]; intros a Hnd; simpl; [symmetry; apply map_id|].
  rewrite step_map by exact Hnd.
  rewrite IH by (rewrite map_fst_upd; exact Hnd).
  rewrite map_map. reflexivity.
Qed.

Ltac key_case k s :=
  let H := fresh in
  destruct (String.eqb_spec k s) as [->|H];
  [reflexivity|apply String.eqb_neq in H; rewrite ?H; cbn [fst snd]].

Lemma upd_all (nm : Dict string) (k v : string) :
  fold_left (fun kv r => upd nm r kv) ("name" :: ref_attrs) (k, v)
  = (k, if is_ref k then rv nm v else v).
Proof.
  unfold is_ref, ref_attrs. cbn [fold_left existsb orb]. unfold upd. cbn [fst snd].
  key_case k "name". key_case k "site". key_case k "material". key_case k "mesh".
  key_case k "texture". key_case k "class". key_case k "childclass". reflexivity.
Qed.

Lemma rename_attrs_map (nm : Dict string) (a : list (string * string)) :
  NoDup (map fst a) ->
  rename_attrs nm a
  = map (fun kv => (fst kv, if is_ref (fst kv) then rv nm (snd kv) else snd kv)) a.
Proof.
  intros Hnd. rewrite rename_attrs_steps, steps_map by exact Hnd.
  apply map_ext. intros [k v]. apply upd_all.
Qed.

Lemma rename_recursive_map (nm : Dict string) :
  forall e, attrs_ok e = true ->
    rename_recursive nm e = tree_map (fun k v => if is_ref k then rv nm v else v) e.
Proof.
  intros e. induction e as [t a c IHc] using element_ind'. intros Hok.
  cbn [attrs_ok] in Hok. apply andb_prop in Hok as [Ha Hc].
  cbn [rename_recursive tree_map]. rewrite rename_attrs_map by (apply nodupb_NoDup; exact Ha).
  f_equal. induction IHc as [|x c Hx Hc' IH]; [reflexivity|].
  simpl in Hc. apply andb_prop in Hc as [Hxok Hcok]. simpl. rewrite Hx, IH by assumption.
  reflexivity.
Qed.

Lemma tree_map_ext (f g : string -> string -> string) (Hfg : forall k v, f k v = g k v) :
  forall e, tree_map f e = tree_map g e.
Proof.
  intros e. induction e as [t a c IHc] using element_ind'. cbn [tree_map]. f_equal.
  - apply map_ext. intros kv. rewrite Hfg. reflexivity.
  - induction IHc as [|x c Hx Hc IH]; [reflexivity|]. simpl. rewrite Hx, IH. reflexivity.
Qed.

Lemma rename_with_names (prefix : string) (N : list string) (nm : Dict string)
  (Hnm : forall n, dict_get n nm
                   = if existsb (String.eqb n) N then Some (prefix ++ "_" ++ n)%string else None)
  (e : Element) (Hok : attrs_ok e = true) :
  rename_recursive nm e = tree_map (frag_rename prefix N) e.
Proof.
  rewrite rename_recursive_map by exact Hok. apply tree_map_ext. intros k v.
  unfold frag_rename, rv. rewrite Hnm.
  destruct (is_ref k), (existsb (String.eqb v) N); reflexivity.
Qed.

Lemma attrs_ok_children (e : Element) :
  attrs_ok e = true -> forall ch, In ch (echildren e) -> attrs_ok ch = true.
Proof.
  destruct e as [t a c]. cbn [attrs_ok echildren]. intros H ch Hch.
  apply andb_prop in H as [_ H]. rewrite forallb_forall in H. exact (H ch Hch).
Qed.

Lemma efind_attrs_ok (tag : string) (root s : Element) :
  attrs_ok root = true -> efind tag root = Some s -> attrs_ok s = true.
Proof.
  intros Hok Hf. unfold efind in Hf. apply find_some in Hf as [Hin _].
  exact (attrs_ok_children root Hok s Hin).
Qed.

Lemma section_renamed (prefix : string) (N : list string) (nm : Dict string)
  (Hnm : forall n, dict_get n nm
                   = if existsb (String.eqb n) N then Some (prefix ++ "_" ++ n)%string else None)
  (tag : string) (root : Element) (Hok : attrs_ok root = true) :
  map (rename_recursive nm) (section_children (efind tag root))
  = map (tree_map (frag_rename prefix N)) (section_children (efind tag root)).
Proof.
  destruct (efind tag root) as [s|] eqn:Ef; [|reflexivity]. cbn [section_children].
  apply map_ext_in. intros ch Hch. apply rename_with_names; [exact Hnm|].
  exact (attrs_ok_children s (efind_attrs_ok tag root s Hok Ef) ch Hch).
Qed.

Lemma collect_section_get (prefix n : string) (s : option Element) (nm : Dict string) :
  dict_get n (collect_section prefix s nm)
  = if existsb (String.eqb n) (section_names s) then Some (prefix ++ "_" ++ n)%string
    else dict_get n nm.
Proof. destruct s as [e|]; simpl; [apply collect_names_get|reflexivity]. Qed.

(** [_load_asset_content] on a parsed fragment returns the children of its worldbody, sensor and asset sections (or the root itself for a non-[mujoco] root) with every [name] and reference attribute whose value is a name of those sections (of the root) replaced by [prefix_value], and all other attributes unchanged. *)
Theorem fragment_renaming (prefix : string) (root : Element) (Hok : attrs_ok root = true) :
  content_of prefix (PTree root)
  = if String.eqb (etag root) "mujoco" then
      let N := section_names (efind "asset" root) ++ section_names (efind "worldbody" root)
               ++ section_names (efind "sensor" root) in
      mkContent (map (tree_map (frag_rename prefix N)) (section_children (efind "worldbody" root)))
                (map (tree_map (frag_rename prefix N)) (section_children (efind "sensor" root)))
                (map (tree_map (frag_rename prefix N)) (section_children (efind "asset" root)))
    else mkContent [tree_map (frag_rename prefix (all_names root)) root] [] [].
Proof.
  cbn [content_of]. destruct (String.eqb (etag root) "mujoco").
  - set (N := section_names (efind "asset" root) ++ section_names (efind "worldbody" root)
              ++ section_names (efind "sensor" root)).
    set (nm := collect_section prefix (efind "sensor" root)
                 (collect_section prefix (efind "worldbody" root)
                    (collect_section prefix (efind "asset" root) []))).
    assert (Hnm : forall n, dict_get n nm
                   = if existsb (String.eqb n) N then Some (prefix ++ "_" ++ n)%string else None).
    { intros n. unfold nm, N. rewrite !collect_section_get, !existsb_app.
      destruct (existsb (String.eqb n) (section_names (efind "sensor" root)));
        destruct (existsb (String.eqb n) (section_names (efind "worldbody" root)));
        destruct (existsb (String.eqb n) (section_names (efind "asset" root)));
        reflexivity. }
    rewrite !(section_renamed prefix N nm Hnm _ root Hok). reflexivity.
  - f_equal. f_equal. apply rename_with_names; [|exact Hok].
    intros n. rewrite collect_names_get. reflexivity.
Qed.

(** ** Examples for the further properties *)

Definition tractor_found : list (string * option AssetManifest) :=
  [("assets/toy_tractor", Some toy_tractor); ("assets/tractor_remote", Some remote_tractor)].

(** The 2 x 3 crate grid as a whole scene. *)
Definition crate_grid_scene : SceneSpec :=
  mkScene "crate_grid" ground_env [crate_grid] [] [] sample_physics.

Lemma find_fallback_scan_witness :
  NoDup (map (fun fm => asset_id (snd fm)) (loaded tractor_found))
  /\ (let cands := filter (declares (lower "tractor")) (map snd (loaded tractor_found)) in
      find_fallback (scan tractor_found) "tractor" (Some "vehicle")
      = match find (fun m => passes (Some "vehicle") m && String.eqb (availability m) "local")
                cands with
        | Some m => Some m
        | None => hd_error cands
        end).
Proof.
  assert (H : NoDup (map (fun fm => asset_id (snd fm)) (loaded tractor_found)))
    by (apply nodupb_NoDup; vm_compute; reflexivity).
  split; [exact H|]. exact (find_fallback_scan tractor_found "tractor" (Some "vehicle") H).
Defined.

Lemma search_ties_in_scan_order_witness :
  0 < 50
  /\ exists rest,
       filter (fun s => negb (filtered_out None s) && Nat.eqb (score box_catalog s "crate") 50)
         (summaries box_catalog)
       = filter (fun s => Nat.eqb (score box_catalog s "crate") 50)
           (search box_catalog "crate" None 1) ++ rest.
Proof.
  split; [lia|]. apply (search_ties_in_scan_order box_catalog "crate" None 1 50). lia.
Defined.

Lemma search_limit_prefix_witness :
  1 <= 2 /\ exists rest, search box_catalog "crate" None 2 = search box_catalog "crate" None 1 ++ rest.
Proof.
  split; [lia|]. apply (search_limit_prefix box_catalog "crate" None 1 2). lia.
Defined.

Lemma best_match_scan_manifest_witness :
  NoDup (map (fun fm => asset_id (snd fm)) (loaded tractor_found))
  /\ forall m, best_match (scan tractor_found) "tractor" None true = Return (Some m) ->
       exists f, In (f, m) (loaded tractor_found)
         /\ In (summary_of f m) (search (scan tractor_found) "tractor" None 10)
         /\ (true = true ->
             existsb (fun r => String.eqb (s_availability r) "local")
               (search (scan tractor_found) "tractor" None 10) = true ->
             availability m = "local").
Proof.
  assert (H : NoDup (map (fun fm => asset_id (snd fm)) (loaded tractor_found)))
    by (apply nodupb_NoDup; vm_compute; reflexivity).
  split; [exact H|]. exact (best_match_scan_manifest tractor_found "tractor" None true H).
Defined.

Lemma laid_out_names_distinct_witness :
  instances crate_grid = None
  /\ NoDup (object_names nat lcg_new lcg_random id_float id_float 42 crate_grid).
Proof.
  split; [reflexivity|].
  apply (laid_out_names_distinct nat lcg_new lcg_random id_float id_float crate_grid 42).
  reflexivity.
Defined.

Lemma grid_without_yaw_variation_witness :
  PrimFloat.ltb 0 (yaw_variation_deg crate_grid_layout) = false
  /\ grid_instances nat lcg_new lcg_random crate_grid_layout 1
     = grid_instances nat lcg_new lcg_random crate_grid_layout 2
  /\ Forall (fun i => yaw_deg (pose i) = 0%float)
       (grid_instances nat lcg_new lcg_random crate_grid_layout 1).
Proof.
  split; [reflexivity|].
  apply (grid_without_yaw_variation nat lcg_new lcg_random crate_grid_layout).
  reflexivity.
Defined.

Lemma compile_seed_irrelevant_witness :
  forallb seed_free (objects crate_grid_scene) = true
  /\ build_mjcf nat lcg_new lcg_random id_float id_float sample_atan2 sample_format_vec
       sample_str_float sample_parse sample_fs crate_grid_scene sample_catalog 1
     = build_mjcf nat lcg_new lcg_random id_float id_float sample_atan2 sample_format_vec
         sample_str_float sample_parse sample_fs crate_grid_scene sample_catalog 2
  /\ scene_to_mjcf nat lcg_new lcg_random id_float id_float sample_atan2 sample_format_vec
       sample_str_float sample_parse sample_tostring sample_fs crate_grid_scene sample_catalog 1
     = scene_to_mjcf nat lcg_new lcg_random id_float id_float sample_atan2 sample_format_vec
         sample_str_float sample_parse sample_tostring sample_fs crate_grid_scene sample_catalog 2.
Proof.
  split; [vm_compute; reflexivity|].
  apply (compile_seed_irrelevant nat lcg_new lcg_random id_float id_float sample_atan2
           sample_format_vec sample_str_float sample_parse sample_tostring).
  vm_compute. reflexivity.
Defined.

Lemma fragment_renaming_witness :
  attrs_ok crate_fragment = true
  /\ content_of "crate_0" (PTree crate_fragment)
     = if String.eqb (etag crate_fragment) "mujoco" then
         let N := section_names (efind "asset" crate_fragment)
                  ++ section_names (efind "worldbody" crate_fragment)
                  ++ section_names (efind "sensor" crate_fragment) in
         mkContent
           (map (tree_map (frag_rename "crate_0" N))
              (section_children (efind "worldbody" crate_fragment)))
           (map (tree_map (frag_rename "crate_0" N))
              (section_children (efind "sensor" crate_fragment)))
           (map (tree_map (frag_rename "crate_0" N))
              (section_children (efind "asset" crate_fragment)))
       else mkContent [tree_map (frag_rename "crate_0" (all_names crate_fragment)) crate_fragment]
              [] [].
Proof.
  split; [vm_compute; reflexivity|].
  apply (fragment_renaming "crate_0" crate_fragment). vm_compute. reflexivity.
Defined.
